(** * gotrader: the Deribit simulation broker (brokers/deribit-sim-broker/simbroker.go)

    A shallow embedding of the matching engine, the position ledger and the
    order registry of [DiribitSimBroker], followed by the properties that the
    specification states about them.

    Go's [float64] arithmetic is kept behind the interface [Float64], and the
    broker is written once against that interface.  The instance [binary64],
    IEEE 754 double precision (Rocq's primitive floats), is what the Go
    program computes with.  Properties that depend on the control flow, and
    on a few laws of comparison, addition and subtraction, are proved for
    every instance of the interface that satisfies those laws; each law is
    proved for [binary64] from the specification of the format. *)

From stdpp Require Import base option strings gmap.
From Stdlib Require Import ZArith Floats Lia.

(** ** The arithmetic of [float64] *)

Declare Scope f64_scope.
Delimit Scope f64_scope with f64.

Class Float64 (F : Type) : Type := {
  f0 : F;                     (* the constant 0 *)
  f100 : F;                   (* the constant 100 *)
  fadd : F -> F -> F;
  fsub : F -> F -> F;
  fmul : F -> F -> F;
  fdiv : F -> F -> F;
  fneg : F -> F;
  fabs : F -> F;              (* math.Abs *)
  flt : F -> F -> bool;       (* x < y *)
  feq : F -> F -> bool;       (* x == y *)
  fint : F -> Z               (* the conversion int(x) *)
}.

Infix "+" := fadd : f64_scope.
Infix "-" := fsub : f64_scope.
Infix "*" := fmul : f64_scope.
Infix "/" := fdiv : f64_scope.
Notation "- x" := (fneg x) : f64_scope.
Notation "x <? y" := (flt x y) : f64_scope.
Notation "x >? y" := (flt y x) (only parsing) : f64_scope.
Notation "x =? y" := (feq x y) : f64_scope.
Notation "x !=? y" := (negb (feq x y)) (at level 70) : f64_scope.

(** Go's [int] has 64 bits on the platforms the broker runs on. *)
Definition minInt64 : Z := - 2 ^ 63.
Definition maxInt64 : Z := 2 ^ 63 - 1.

(** A float-to-int conversion truncates towards zero.  When the value does not
    fit the result is implementation-dependent; amd64 yields the "integer
    indefinite" value, the least [int64]. *)
Definition clampInt (t : Z) : Z :=
  if ((minInt64 <=? t) && (t <=? maxInt64))%Z then t else minInt64.

Definition int_of_float (x : float) : Z :=
  match Prim2SF x with
  | S754_zero _ => 0
  | S754_finite s m e =>
      let v := Z.shiftl (Zpos m) e in
      clampInt (if s then - v else v)
  | S754_infinity _ | S754_nan => minInt64
  end.

#[export] Instance binary64 : Float64 float := {|
  f0 := 0%float;
  f100 := 100%float;
  fadd := PrimFloat.add;
  fsub := PrimFloat.sub;
  fmul := PrimFloat.mul;
  fdiv := PrimFloat.div;
  fneg := PrimFloat.opp;
  fabs := PrimFloat.abs;
  flt := PrimFloat.ltb;
  feq := PrimFloat.eqb;
  fint := int_of_float
|}.

(** ** The data model *)

(** Modelled from the spec: package [models] is not part of the sources at
    hand.  Its enumerations are taken from section 3 of the specification:
    direction (buy/sell), type (market/limit) and status (new,
    partially-filled, filled, cancelled, rejected). *)
Inductive Direction : Set := Buy | Sell.
Inductive OrderType : Set := OrderTypeMarket | OrderTypeLimit.
Inductive OrderStatus : Set :=
| OrderStatusNew
| OrderStatusPartiallyFilled
| OrderStatusFilled
| OrderStatusCancelled
| OrderStatusRejected.

(** The errors the broker creates with [errors.New], one constructor per
    message; [message] gives the text, with [%v] where [fmt.Sprintf] prints
    [maxAmount].  Go's [error] is [nil] or such a value. *)
Inductive err {F : Type} : Type :=
| ErrInvalidSize
| ErrPositionLimit
| ErrMaxAmount (maxAmount : F)
| ErrLimitOrder
| ErrNoPosition
| ErrDirection
| ErrNotFound.
Arguments err : clear implicits.

Definition message {F} (e : err F) : string :=
  match e with
  | ErrInvalidSize => "Invalid size - not multiple of contract size ($10)"
  | ErrPositionLimit => "Rejected, maximum size of future position is $1,000,000"
  | ErrMaxAmount _ => "Rejected, maximum size of future position is %v"
  | ErrLimitOrder => "暂不支持限价单"
  | ErrNoPosition => "当前无持仓"
  | ErrDirection => "方向错误"
  | ErrNotFound => "not found"
  end.

Definition error (F : Type) : Type := option (err F).

(** [models.Order], with the fields that [PlaceOrder] fills in. *)
Module Order.
Record t {F : Type} : Type := mk {
  ID : N;
  Symbol : string;
  Price : F;
  Amount : F;
  AvgPrice : F;
  FilledAmount : F;
  Direction : Direction;
  Type_ : OrderType;
  PostOnly : bool;
  ReduceOnly : bool;
  Status : OrderStatus
}.
Arguments t : clear implicits.

(** Modelled from the spec: [Order.IsOpen] lives in package [models]; an
    order is open while its status is not terminal. *)
Definition IsOpen {F} (o : t F) : bool :=
  match Status o with
  | OrderStatusNew | OrderStatusPartiallyFilled => true
  | _ => false
  end.
End Order.

(** Modelled from the spec: the quote that [data.GetTick] returns is declared
    in package [data]; section 3 gives it a timestamp, bid and ask price and
    bid and ask size. *)
Module Tick.
Record t {F : Type} : Type := mk {
  Timestamp : Z;
  Bid : F;
  Ask : F;
  BidVolume : Z;
  AskVolume : Z
}.
Arguments t : clear implicits.
End Tick.

(** [models.AccountSummary], with the fields that [GetAccountSummary] sets. *)
Module AccountSummary.
Record t {F : Type} : Type := mk {
  Balance : F;
  Pnl : F;
  Equity : F
}.
Arguments t : clear implicits.
End AccountSummary.

(** What the broker uses of package [models] without its code being at hand:
    the pure function [CalcPnl] (its first result; the second one is dropped
    at every call), the zero value [Order{}] (its enumeration fields default
    to constants declared in [models]) and the direction that
    [Position.Side] reports for a position that is neither long nor short. *)
Class Models (F : Type) : Type := {
  CalcPnl : Direction -> F -> F -> F -> F;
  zeroOrder : Order.t F;
  flatSide : Direction
}.

(** [models.Position], with the fields that [getPosition] fills in. *)
Module Position.
Record t {F : Type} : Type := mk {
  Symbol : string;
  OpenI : Z;                  (* time.Time, as an instant; 0 is time.Time{} *)
  OpenPrice : F;
  Size : F;
  AvgPrice : F
}.
Arguments t : clear implicits.

(** Modelled from the spec: [Position.Side] lives in package [models]; a
    positive size is a long position, a negative size a short one. *)
Definition Side {F} `{!Float64 F} `{!Models F} (p : t F) : Direction :=
  if (Size p >? f0)%f64 then Buy
  else if (Size p <? f0)%f64 then Sell
  else flatSide.
End Position.

(** [DiribitSimBroker].  [data] holds the quote that [b.data.GetTick()]
    returns.  The maps hold pointers in Go; an order is never written after
    it is filed, and every cell of [positions] owns its [Position], so a
    [*Position] is modelled by the key of its cell (see [ptr]). *)
Record DiribitSimBroker {F : Type} : Type := mkBroker {
  data : Tick.t F;
  makerFeeRate : F;
  takerFeeRate : F;
  balance : F;
  orders : gmap N (Order.t F);
  openOrders : gmap N (Order.t F);
  historyOrders : gmap N (Order.t F);
  positions : gmap string (Position.t F)
}.
Arguments DiribitSimBroker : clear implicits.

Definition PositionSizeLimit : Z := 100000.

(** A [*Position]: [None] is [nil], [Some k] points to the position owned by
    [positions[k]]. *)
Definition ptr : Type := option string.

(** A call either returns a value and the broker's new state, or it ends the
    process ([log.Fatalf], or a panic on a nil pointer). *)
Inductive outcome (S A : Type) : Type :=
| Returns (a : A) (s : S)
| Aborts (msg : string).
Arguments Returns {S A} a s.
Arguments Aborts {S A} msg.

Definition M (F : Type) (A : Type) : Type :=
  DiribitSimBroker F -> outcome (DiribitSimBroker F) A.

#[export] Instance M_ret {F} : MRet (M F) := fun A a b => Returns a b.
#[export] Instance M_bind {F} : MBind (M F) := fun A B f m b =>
  match m b with
  | Returns a b' => f a b'
  | Aborts msg => Aborts msg
  end.

Definition fatal {F A} (msg : string) : M F A := fun _ => Aborts msg.
Definition gets {F A} (f : DiribitSimBroker F -> A) : M F A := fun b => Returns (f b) b.
Definition modify {F} (f : DiribitSimBroker F -> DiribitSimBroker F) : M F unit :=
  fun b => Returns tt (f b).

Definition set_balance {F} (v : F) (b : DiribitSimBroker F) : DiribitSimBroker F :=
  mkBroker F (data b) (makerFeeRate b) (takerFeeRate b) v
           (orders b) (openOrders b) (historyOrders b) (positions b).
Definition set_orders {F} (m : gmap N (Order.t F)) (b : DiribitSimBroker F) : DiribitSimBroker F :=
  mkBroker F (data b) (makerFeeRate b) (takerFeeRate b) (balance b)
           m (openOrders b) (historyOrders b) (positions b).
Definition set_openOrders {F} (m : gmap N (Order.t F)) (b : DiribitSimBroker F) : DiribitSimBroker F :=
  mkBroker F (data b) (makerFeeRate b) (takerFeeRate b) (balance b)
           (orders b) m (historyOrders b) (positions b).
Definition set_historyOrders {F} (m : gmap N (Order.t F)) (b : DiribitSimBroker F) : DiribitSimBroker F :=
  mkBroker F (data b) (makerFeeRate b) (takerFeeRate b) (balance b)
           (orders b) (openOrders b) m (positions b).
Definition set_positions {F} (m : gmap string (Position.t F)) (b : DiribitSimBroker F) : DiribitSimBroker F :=
  mkBroker F (data b) (makerFeeRate b) (takerFeeRate b) (balance b)
           (orders b) (openOrders b) (historyOrders b) m.

(** ** The broker's code *)

Section Code.
Context {F : Type} `{!Float64 F} `{!Models F}.
Local Open Scope f64_scope.

(** Reading and writing through a [*Position]. *)
Definition load (p : ptr) : M F (Position.t F) := fun b =>
  match p with
  | None => Aborts "invalid memory address or nil pointer dereference"
  | Some k =>
      match positions b !! k with
      | Some position => Returns position b
      | None => Aborts "invalid memory address or nil pointer dereference"
      end
  end.

Definition store (p : ptr) (position : Position.t F) : M F unit := fun b =>
  match p with
  | None => Aborts "invalid memory address or nil pointer dereference"
  | Some k => Returns tt (set_positions (<[k := position]> (positions b)) b)
  end.

Definition addBalance (value : F) : M F unit :=
  modify (fun b => set_balance (balance b + value) b).

Definition addPnl (pnl : F) : M F unit :=
  modify (fun b => set_balance (balance b + pnl) b).

Definition getPosition (symbol : string) : M F ptr := fun b =>
  match positions b !! symbol with
  | Some _ => Returns (Some symbol) b
  | None =>
      let position := Position.mk F symbol 0 f0 f0 f0 in
      Returns (Some symbol) (set_positions (<[symbol := position]> (positions b)) b)
  end.

Definition addPosition (position : ptr) (size price : F) : M F (error F) :=
  p ← load position;
  if (Position.Size p <? f0) && (size >? f0) || (Position.Size p >? f0) && (size <? f0)
  then mret (Some ErrDirection)
  else
    let positionCost :=
      if (Position.Size p !=? f0) && (Position.AvgPrice p !=? f0)
      then fabs (Position.Size p) / Position.AvgPrice p
      else f0 in
    let newPositionCost := fabs size / price in
    let totalCost := positionCost + newPositionCost in
    let totalSize := fabs (Position.Size p + size) in
    let avgPrice := totalSize / totalCost in
    store position
      (Position.mk F (Position.Symbol p) (Position.OpenI p) (Position.OpenPrice p)
                   (Position.Size p + size) avgPrice);;
    mret None.

Definition closePosition (position : ptr) (size price : F) : M F (error F) :=
  p ← load position;
  if Position.Size p =? f0 then mret (Some ErrNoPosition)
  else if (Position.Size p >? f0) && (size >? f0) || (Position.Size p <? f0) && (size <? f0)
  then mret (Some ErrDirection)
  else
    let remaining := fabs size - fabs (Position.Size p) in
    if remaining >? f0 then
      let pnl := CalcPnl (Position.Side p) (fabs (Position.Size p)) (Position.AvgPrice p) price in
      addPnl pnl;;
      store position
        (Position.mk F (Position.Symbol p) (Position.OpenI p) (Position.OpenPrice p)
                     (Position.Size p + size) price);;
      mret None
    else if remaining =? f0 then
      let pnl := CalcPnl (Position.Side p) (fabs size) (Position.AvgPrice p) price in
      addPnl pnl;;
      store position
        (Position.mk F (Position.Symbol p) (Position.OpenI p) (Position.OpenPrice p) f0 f0);;
      mret None
    else
      let pnl := CalcPnl (Position.Side p) (fabs (Position.Size p)) (Position.AvgPrice p) price in
      addPnl pnl;;
      store position
        (Position.mk F (Position.Symbol p) (Position.OpenI p) (Position.OpenPrice p)
                     (Position.Size p + size) (Position.AvgPrice p));;
      mret None.

(** [log.Fatalf] ends the process; the error that [closePosition] or
    [addPosition] returns is dropped. *)
Definition updatePosition (symbol : string) (size price : F) : M F unit :=
  position ← getPosition symbol;
  match position with
  | None => fatal ("position error symbol=" ++ symbol)
  | Some _ =>
      p ← load position;
      if (Position.Size p >? f0) && (size <? f0) || (Position.Size p <? f0) && (size >? f0)
      then closePosition position size price;; mret tt
      else addPosition position size price;; mret tt
  end.

Definition matchMarketOrder (order : Order.t F) : M F (error F) :=
  if negb (Order.IsOpen order) then mret None
  else if negb (Z.rem (fint (Order.Amount order)) 10 =? 0)%Z then mret (Some ErrInvalidSize)
  else
    position ← getPosition (Order.Symbol order);
    p ← load position;
    if (fint (Position.Size p + Order.Amount order)%f64 >? PositionSizeLimit)%Z
       || (fint (Position.Size p - Order.Amount order)%f64 <? - PositionSizeLimit)%Z
    then mret (Some ErrPositionLimit)
    else
      tick ← gets data;
      margin ← gets balance;
      match Order.Direction order with
      | Buy =>
          let maxAmount := margin * f100 * Tick.Ask tick in
          if Order.Amount order >? maxAmount then mret (Some (ErrMaxAmount maxAmount))
          else
            let price := Tick.Ask tick in
            let size := Order.Amount order in
            taker ← gets takerFeeRate;
            let fee := size / price * taker in
            addBalance (- fee);;
            updatePosition (Order.Symbol order) size price;;
            mret None
      | Sell =>
          let maxAmount := margin * f100 * Tick.Bid tick in
          if Order.Amount order >? maxAmount then mret (Some (ErrMaxAmount maxAmount))
          else
            let price := Tick.Bid tick in
            let size := Order.Amount order in
            taker ← gets takerFeeRate;
            let fee := size / price * taker in
            addBalance (- fee);;
            updatePosition (Order.Symbol order) (- size) price;;
            mret None
      end.

(** Both comparisons with the quote guard an empty block (a TODO). *)
Definition matchLimitOrder (order : Order.t F) : M F (error F) :=
  if negb (Order.IsOpen order) then mret None
  else
    tick ← gets data;
    mret (Some ErrLimitOrder).

Definition matchOrder (order : Order.t F) : M F (error F) :=
  match Order.Type_ order with
  | OrderTypeMarket => matchMarketOrder order
  | OrderTypeLimit => matchLimitOrder order
  end.

(** [id] is the identity that [util2.NextID()] hands out for this call.  The
    named result [result] is never assigned, so the call returns [Order{}]. *)
Definition PlaceOrder (id : N) (symbol : string) (direction : Direction)
    (orderType : OrderType) (price amount : F) (postOnly reduceOnly : bool)
  : M F (Order.t F * error F) :=
  let order := Order.mk F id symbol price amount f0 f0 direction orderType
                        postOnly reduceOnly OrderStatusNew in
  e ← matchOrder order;
  match e with
  | Some _ => mret (zeroOrder, e)
  | None =>
      (if Order.IsOpen order
       then modify (fun b => set_openOrders (<[id := order]> (openOrders b)) b)
       else modify (fun b => set_historyOrders (<[id := order]> (historyOrders b)) b));;
      modify (fun b => set_orders (<[id := order]> (orders b)) b);;
      mret (zeroOrder, None)
  end.

Definition GetAccountSummary (currency : string) : M F (AccountSummary.t F * error F) :=
  resultBalance ← gets balance;
  let symbol :=
    if String.eqb currency "BTC" then "BTC-PERPETUAL"
    else if String.eqb currency "ETH" then "ETH-PERPETUAL"
    else "" in
  position ← getPosition symbol;
  tick ← gets data;
  p ← load position;
  let side := Position.Side p in
  let price := match side with Buy => Tick.Ask tick | Sell => Tick.Bid tick end in
  let pnl := CalcPnl side (fabs (Position.Size p)) (Position.AvgPrice p) price in
  mret (AccountSummary.mk F resultBalance pnl (resultBalance + pnl), None).

Definition GetOrder (symbol : string) (id : N) : M F (Order.t F * error F) :=
  o ← gets (fun b => orders b !! id);
  match o with
  | None => mret (zeroOrder, Some ErrNotFound)
  | Some order => mret (order, None)
  end.

Definition GetPosition (symbol : string) : M F (Position.t F * error F) :=
  o ← gets (fun b => positions b !! symbol);
  match o with
  | None => mret (Position.mk F "" 0 f0 f0 f0, Some ErrNotFound)
  | Some position => mret (position, None)
  end.

Definition NewBroker (d : Tick.t F) (cash makerFee takerFee : F) : DiribitSimBroker F :=
  mkBroker F d makerFee takerFee cash ∅ ∅ ∅ ∅.
End Code.

(** ** Vocabulary of the statements *)

Section Vocabulary.
Context {F : Type} `{!Float64 F}.
Local Open Scope f64_scope.

(** The signed size that a market fill hands to [updatePosition]. *)
Definition signedSize (direction : Direction) (amount : F) : F :=
  match direction with Buy => amount | Sell => - amount end.

(** The price at which a market order executes. *)
Definition executionPrice (direction : Direction) (tick : Tick.t F) : F :=
  match direction with Buy => Tick.Ask tick | Sell => Tick.Bid tick end.

(** The dispatch test of [updatePosition]: the fill goes against the
    position. *)
Definition opposite (positionSize size : F) : bool :=
  (positionSize >? f0) && (size <? f0) || (positionSize <? f0) && (size >? f0).

(** The position that [getPosition] creates for an unknown symbol. *)
Definition freshPosition (symbol : string) : Position.t F :=
  Position.mk F symbol 0 f0 f0 f0.

(** The position that a call finds for [symbol], or creates. *)
Definition positionOf (b : DiribitSimBroker F) (symbol : string) : Position.t F :=
  default (freshPosition symbol) (positions b !! symbol).

(** The order maps of two brokers agree. *)
Definition sameRegistry (b b' : DiribitSimBroker F) : Prop :=
  orders b' = orders b /\ openOrders b' = openOrders b /\
  historyOrders b' = historyOrders b.

(** The symbol that [GetAccountSummary] derives from a currency. *)
Definition currencySymbol (currency : string) : string :=
  if String.eqb currency "BTC" then "BTC-PERPETUAL"
  else if String.eqb currency "ETH" then "ETH-PERPETUAL"
  else "".
End Vocabulary.

(** The facts about comparisons with zero that the dispatch of
    [updatePosition] relies on. *)
Class Float64Laws (F : Type) `{!Float64 F} : Prop := {
  flt_pos_nonzero : forall x : F, (f0 <? x)%f64 = true -> (x =? f0)%f64 = false;
  flt_neg_nonzero : forall x : F, (x <? f0)%f64 = true -> (x =? f0)%f64 = false;
  flt_pos_not_neg : forall x : F, (f0 <? x)%f64 = true -> (x <? f0)%f64 = false
}.

(** What the branches of [closePosition] rely on: the difference of two
    magnitudes is positive when the first is the larger one and negative
    when it is the smaller one, and the sum of two numbers of opposite signs
    has the sign of the larger one and the difference of the magnitudes as
    its magnitude. *)
Class Float64Magnitudes (F : Type) `{!Float64 F} : Prop := {
  fsub_fabs_pos : forall x y : F,
    (fabs x <? fabs y)%f64 = true -> (f0 <? fabs y - fabs x)%f64 = true;
  fsub_fabs_neg : forall x y : F,
    (fabs x <? fabs y)%f64 = true ->
    (f0 <? fabs x - fabs y)%f64 = false /\ (fabs x - fabs y =? f0)%f64 = false;
  fadd_opposite_neg : forall x y : F,
    (f0 <? x)%f64 = true -> (y <? f0)%f64 = true ->
    (fabs x <? fabs y)%f64 = true -> (x + y <? f0)%f64 = true;
  fadd_opposite_pos : forall x y : F,
    (x <? f0)%f64 = true -> (f0 <? y)%f64 = true ->
    (fabs x <? fabs y)%f64 = true -> (f0 <? x + y)%f64 = true;
  fadd_opposite_abs : forall x y : F,
    opposite x y = true -> (fabs x <? fabs y)%f64 = true ->
    (fabs (x + y) =? fabs y - fabs x)%f64 = true
}.

(** What the average price of [addPosition] relies on when one fill follows
    another on the same side: zero is neutral on the left of a number that
    is not zero and of a quotient of positive numbers, negation turns a
    positive number into a negative one of the same magnitude, and a sum of
    positive numbers is positive and is the magnitude of the sum of their
    negations. *)
Class Float64Signs (F : Type) `{!Float64 F} : Prop := {
  feq_zero : (@f0 F _ =? f0)%f64 = true;
  fadd_zero_l : forall x : F, (x =? f0)%f64 = false -> (f0 + x)%f64 = x;
  fadd_zero_div : forall x y : F,
    (f0 <? x)%f64 = true -> (f0 <? y)%f64 = true -> (f0 + x / y)%f64 = (x / y)%f64;
  fneg_pos : forall x : F, (f0 <? x)%f64 = true -> (- x <? f0)%f64 = true;
  fabs_pos : forall x : F, (f0 <? x)%f64 = true -> fabs x = x;
  fabs_fneg : forall x : F, fabs (- x)%f64 = fabs x;
  fadd_pos : forall x y : F,
    (f0 <? x)%f64 = true -> (f0 <? y)%f64 = true -> (f0 <? x + y)%f64 = true;
  fadd_fneg : forall x y : F,
    (f0 <? x)%f64 = true -> (f0 <? y)%f64 = true -> (- x + - y)%f64 = (- (x + y))%f64
}.

(** What the position-limit test relies on: a subtraction is the addition
    of the negation, and [int(0)] is 0. *)
Class Float64Truncation (F : Type) `{!Float64 F} : Prop := {
  fint_zero : fint (@f0 F _) = 0%Z;
  fsub_fneg : forall x y : F, (x - y)%f64 = (x + - y)%f64
}.

(** A binary64 number, in the representation of its specification, is
    positive (negative) when it is finite and not zero, or infinite, with
    that sign. *)
Definition SFpositive (x : spec_float) : Prop :=
  (exists m e, x = S754_finite false m e) \/ x = S754_infinity false.

Definition SFnegative (x : spec_float) : Prop :=
  (exists m e, x = S754_finite true m e) \/ x = S754_infinity true.

(** ** Fixtures *)

(** Modelled from the spec: [CalcPnl] is a pure function of side, quantity,
    entry and exit price (section 6) for inverse contracts (glossary); its
    code is in package [models].  This stand-in, the usual inverse-contract
    formula, only serves to run the broker on concrete inputs; no statement
    below depends on the formula. *)
Definition inversePnl {F} `{!Float64 F} (side : Direction)
    (quantity entryPrice exitPrice : F) : F :=
  match side with
  | Buy => (quantity / entryPrice - quantity / exitPrice)%f64
  | Sell => (quantity / exitPrice - quantity / entryPrice)%f64
  end.

Definition sampleModels {F} `{!Float64 F} : Models F := {|
  CalcPnl := inversePnl;
  zeroOrder := Order.mk F 0 "" f0 f0 f0 f0 Buy OrderTypeMarket false false OrderStatusNew;
  flatSide := Buy
|}.

(** A quote of 99 bid, 100 ask, and a broker opened on it with 100 units of
    cash, a maker fee of -2^-12 and a taker fee of 2^-10. *)
Definition quote : Tick.t float :=
  Tick.mk float 0 99%float 100%float 1000 1000.

Definition broker0 : DiribitSimBroker float :=
  NewBroker quote 100%float (-0.000244140625)%float 0.0009765625%float.

(** The same broker holding [size] at an average price of [avgPrice]. *)
Definition brokerHolding (size avgPrice : float) : DiribitSimBroker float :=
  set_positions {[ "BTC-PERPETUAL" := Position.mk float "BTC-PERPETUAL" 0 0%float size avgPrice ]}
                broker0.


(** ** The rest of the interface: order book and open orders *)

(** The conversion [float64(n)] of an [int64]: the nearest binary64 number. *)
Class Float64OfInt (F : Type) : Type := {
  fofint : Z -> F
}.

#[export] Instance binary64_of_int : Float64OfInt float := {|
  fofint n := SF2Prim (binary_normalize prec emax n 0 false)
|}.

(** [models.Item] and [models.OrderBook], with the fields that
    [GetOrderBook] sets. *)
Module Item.
Record t {F : Type} : Type := mk {
  Price : F;
  Amount : F
}.
Arguments t : clear implicits.
End Item.

Module OrderBook.
Record t {F : Type} : Type := mk {
  Time : Z;
  Asks : list (Item.t F);
  Bids : list (Item.t F)
}.
Arguments t : clear implicits.
End OrderBook.

Section Queries.
Context {F : Type} `{!Float64 F} `{!Models F} `{!Float64OfInt F}.

Definition GetOrderBook (symbol : string) (depth : Z) : M F (OrderBook.t F * error F) :=
  tick ← gets data;
  mret (OrderBook.mk F (Tick.Timestamp tick)
          [Item.mk F (Tick.Ask tick) (fofint (Tick.AskVolume tick))]
          [Item.mk F (Tick.Bid tick) (fofint (Tick.BidVolume tick))],
        None).

(** [range b.openOrders] visits every entry of the map once, in an order
    that Go's runtime chooses anew for every loop; [visit] is that sequence
    of entries.  The result starts as the nil slice. *)
Definition GetOpenOrders (visit : list (N * Order.t F)) (symbol : string)
  : M F (list (Order.t F) * error F) :=
  mret (foldl (fun result kv =>
                 if String.eqb (Order.Symbol (snd kv)) symbol
                 then result ++ [snd kv] else result)
              [] visit,
        None).
End Queries.

(** ** More vocabulary *)

Section MoreVocabulary.
Context {F : Type} `{!Float64 F} `{!Models F} `{!Float64OfInt F}.
Local Open Scope f64_scope.

(** The order that [PlaceOrder] builds from its arguments. *)
Definition newOrder (id : N) (symbol : string) (direction : Direction)
    (orderType : OrderType) (price amount : F) (postOnly reduceOnly : bool) : Order.t F :=
  Order.mk F id symbol price amount f0 f0 direction orderType
           postOnly reduceOnly OrderStatusNew.

(** The three tests of [matchMarketOrder], read on the broker as it is before
    the call. *)
Definition sizeTest (amount : F) : bool :=
  (Z.rem (fint amount) 10 =? 0)%Z.

Definition limitTest (b : DiribitSimBroker F) (symbol : string) (amount : F) : bool :=
  negb ((fint (Position.Size (positionOf b symbol) + amount)%f64 >? PositionSizeLimit)%Z
        || (fint (Position.Size (positionOf b symbol) - amount)%f64 <? - PositionSizeLimit)%Z).

Definition maxAmountOf (b : DiribitSimBroker F) (direction : Direction) : F :=
  balance b * f100 * executionPrice direction (data b).

Definition marginTest (b : DiribitSimBroker F) (direction : Direction) (amount : F) : bool :=
  negb (amount >? maxAmountOf b direction).

(** A position record keeps its symbol, opening time and opening price. *)
Definition sameRecord (p p' : Position.t F) : Prop :=
  Position.Symbol p' = Position.Symbol p /\
  Position.OpenI p' = Position.OpenI p /\
  Position.OpenPrice p' = Position.OpenPrice p.

(** The taker fee of a market fill. *)
Definition takerFee (b : DiribitSimBroker F) (direction : Direction) (amount : F) : F :=
  amount / executionPrice direction (data b) * takerFeeRate b.

(** The broker with the sizes of its quote replaced. *)
Definition setVolumes (bidVolume askVolume : Z) (b : DiribitSimBroker F)
  : DiribitSimBroker F :=
  mkBroker F (Tick.mk F (Tick.Timestamp (data b)) (Tick.Bid (data b)) (Tick.Ask (data b))
                      bidVolume askVolume)
           (makerFeeRate b) (takerFeeRate b) (balance b)
           (orders b) (openOrders b) (historyOrders b) (positions b).

Definition mapState {A} (f : DiribitSimBroker F -> DiribitSimBroker F)
    (o : outcome (DiribitSimBroker F) A) : outcome (DiribitSimBroker F) A :=
  match o with
  | Returns a b => Returns a (f b)
  | Aborts msg => Aborts msg
  end.

(** One call of the public interface takes the broker from [b] to [b']. *)
Inductive step : DiribitSimBroker F -> DiribitSimBroker F -> Prop :=
| step_PlaceOrder id symbol direction orderType price amount postOnly reduceOnly r b b' :
    PlaceOrder id symbol direction orderType price amount postOnly reduceOnly b
      = Returns r b' -> step b b'
| step_GetAccountSummary currency r b b' :
    GetAccountSummary currency b = Returns r b' -> step b b'
| step_GetOrderBook symbol depth r b b' :
    GetOrderBook symbol depth b = Returns r b' -> step b b'
| step_GetOpenOrders visit symbol r b b' :
    visit ≡ₚ map_to_list (openOrders b) ->
    GetOpenOrders visit symbol b = Returns r b' -> step b b'
| step_GetOrder symbol id r b b' :
    GetOrder symbol id b = Returns r b' -> step b b'
| step_GetPosition symbol r b b' :
    GetPosition symbol b = Returns r b' -> step b b'.

(** The brokers that calls of the interface reach from [b]. *)
Definition reaches (b b' : DiribitSimBroker F) : Prop := rtc step b b'.

(** What holds of the order maps of a broker made by [NewBroker]: no order
    is ever filed as history, and every order on file is a market order
    still in the state in which [PlaceOrder] built it. *)
Definition registryInv (b : DiribitSimBroker F) : Prop :=
  historyOrders b = ∅ /\ openOrders b = orders b /\
  forall id o, orders b !! id = Some o ->
    Order.ID o = id /\ Order.Status o = OrderStatusNew /\
    Order.Type_ o = OrderTypeMarket /\
    Order.FilledAmount o = f0 /\ Order.AvgPrice o = f0.

(** What holds of its position records: each is filed under its own symbol
    and its opening time and price are never set. *)
Definition ledgerInv (b : DiribitSimBroker F) : Prop :=
  forall k p, positions b !! k = Some p ->
    Position.Symbol p = k /\ Position.OpenI p = 0%Z /\ Position.OpenPrice p = f0.
End MoreVocabulary.

(** A test for numbers that are neither infinite nor NaN: [|x| < +Inf] in
    binary64. *)
Class Float64Finite (F : Type) `{!Float64 F} : Type := {
  ffinite : F -> bool;
  fsub_fabs_eq : forall x y : F,
    ffinite x = true -> (fabs x =? fabs y)%f64 = true ->
    (fabs x - fabs y =? f0)%f64 = true
}.

(** ** More fixtures *)

(** The market buy of 10 that the first broker accepts, and the broker after
    it: the order on file, the fee paid, 10 long at 100. *)
Definition order10 : Order.t float :=
  Order.mk float 1 "BTC-PERPETUAL" 0%float 10%float 0%float 0%float Buy OrderTypeMarket
           false false OrderStatusNew.

Definition brokerBought10 : DiribitSimBroker float :=
  set_orders {[ 1%N := order10 ]}
    (set_openOrders {[ 1%N := order10 ]}
       (set_balance (100 + - (10 / 100 * 0.0009765625))%float
          (brokerHolding 10%float 100%float))).

(** ** Whole numbers in binary64 *)

(** A binary64 number is the whole number [z], of magnitude below 2^53: in
    the representation of the format's specification it is 0, or a
    mantissa [m] and an exponent [e] that is not positive with
    [m = |z| * 2^(-e)] and the sign of [z].  (A mantissa has at most 53
    digits, so a number below 2^53 has no positive exponent.)  Every
    [float64(n)] with [|n| < 2^53] is such a number (lemma
    [whole_fofint]). *)
Definition SFwhole (x : spec_float) (z : Z) : Prop :=
  match x with
  | S754_zero _ => z = 0%Z
  | S754_finite s m e => (e <= 0)%Z /\ (if s then Zneg m else Zpos m) = (z * 2 ^ (- e))%Z
  | _ => False
  end.

Definition whole (x : float) (z : Z) : Prop := SFwhole (Prim2SF x) z.

Section WholeVocabulary.
Context `{!Models float}.

(** One call of the public interface in which the amount of an order, if
    one is placed, is a whole number between 0 and 2^52. *)
Inductive wholeStep : DiribitSimBroker float -> DiribitSimBroker float -> Prop :=
| wholeStep_PlaceOrder id symbol direction orderType price amount (n : Z)
                       postOnly reduceOnly r b b' :
    whole amount n -> (0 <= n <= 2 ^ 52)%Z ->
    PlaceOrder id symbol direction orderType price amount postOnly reduceOnly b
      = Returns r b' -> wholeStep b b'
| wholeStep_GetAccountSummary currency r b b' :
    GetAccountSummary currency b = Returns r b' -> wholeStep b b'
| wholeStep_GetOrderBook symbol depth r b b' :
    GetOrderBook symbol depth b = Returns r b' -> wholeStep b b'
| wholeStep_GetOpenOrders visit symbol r b b' :
    visit ≡ₚ map_to_list (openOrders b) ->
    GetOpenOrders visit symbol b = Returns r b' -> wholeStep b b'
| wholeStep_GetOrder symbol id r b b' :
    GetOrder symbol id b = Returns r b' -> wholeStep b b'
| wholeStep_GetPosition symbol r b b' :
    GetPosition symbol b = Returns r b' -> wholeStep b b'.

Definition wholeReaches (b b' : DiribitSimBroker float) : Prop := rtc wholeStep b b'.

(** Every position is a whole number within the position limit. *)
Definition limitInv (b : DiribitSimBroker float) : Prop :=
  forall k p, positions b !! k = Some p ->
    exists z, whole (Position.Size p) z /\
              (- PositionSizeLimit <= z <= PositionSizeLimit)%Z.
End WholeVocabulary.

(** * Properties *)

(** ** Facts about binary64

    What the broker needs to know about IEEE 754 subtraction and addition,
    derived from the specification of the primitive floats
    ([Prim2SF] and the operations on [spec_float]). *)

Module Binary64Facts.
Local Open Scope Z_scope.

(** Mantissa and its number of digits. *)
Lemma digits2_pos_bounds (m : positive) :
  2 ^ (Zpos (digits2_pos m) - 1) <= Zpos m < 2 ^ Zpos (digits2_pos m).
Proof.
  induction m as [m IH|m IH|]; cbn [digits2_pos]; [| |cbn; lia];
    rewrite Pos2Z.inj_succ;
    replace (Z.succ (Zpos (digits2_pos m)) - 1) with (Zpos (digits2_pos m)) by lia;
    rewrite Z.pow_succ_r by lia;
    assert (H : 2 ^ Zpos (digits2_pos m) = 2 * 2 ^ (Zpos (digits2_pos m) - 1))
      by (rewrite <- Z.pow_succ_r by lia; f_equal; lia);
    lia.
Qed.

Lemma shr_1_m (mrs : shr_record) :
  0 <= shr_m mrs -> shr_m (shr_1 mrs) = shr_m mrs / 2.
Proof.
  destruct mrs as [m r s]. cbn [shr_m]. intros Hm.
  rewrite <- Z.div2_div.
  destruct m as [|[p|p|]|p]; cbn [shr_1 shr_m]; try reflexivity; lia.
Qed.

Lemma pow2_xO (p : positive) : 2 ^ Zpos p~0 = 2 ^ Zpos p * 2 ^ Zpos p.
Proof.
  rewrite (Pos2Z.inj_xO p). replace (2 * Zpos p) with (Zpos p + Zpos p) by lia.
  apply Z.pow_add_r; lia.
Qed.

Lemma pow2_xI (p : positive) : 2 ^ Zpos p~1 = 2 * (2 ^ Zpos p * 2 ^ Zpos p).
Proof.
  rewrite (Pos2Z.inj_xI p). replace (2 * Zpos p + 1) with (Z.succ (Zpos p + Zpos p)) by lia.
  rewrite Z.pow_succ_r, Z.pow_add_r by lia. reflexivity.
Qed.

Lemma iter_pos_shr_m (p : positive) : forall mrs,
  0 <= shr_m mrs ->
  shr_m (iter_pos shr_1 p mrs) = shr_m mrs / 2 ^ Zpos p.
Proof.
  assert (Hpow : forall q : positive, 0 < 2 ^ Zpos q) by (intros q; apply Z.pow_pos_nonneg; lia).
  induction p as [p IH|p IH|]; intros mrs Hm; cbn [iter_pos].
  - assert (H1 : 0 <= shr_m (shr_1 mrs)) by (rewrite shr_1_m by lia; apply Z.div_pos; lia).
    assert (H2 : 0 <= shr_m (iter_pos shr_1 p (shr_1 mrs)))
      by (rewrite IH by lia; apply Z.div_pos; [lia|apply Hpow]).
    rewrite IH, IH, shr_1_m by lia.
    pose proof (Hpow p).
    rewrite !Z.div_div by lia.
    now rewrite pow2_xI, Z.mul_assoc.
  - assert (H2 : 0 <= shr_m (iter_pos shr_1 p mrs))
      by (rewrite IH by lia; apply Z.div_pos; [lia|apply Hpow]).
    rewrite IH, IH by lia.
    pose proof (Hpow p).
    rewrite !Z.div_div by lia.
    now rewrite pow2_xO.
  - rewrite shr_1_m by lia. reflexivity.
Qed.

Lemma fexp64 (k : Z) : fexp prec emax k = Z.max (k - 53) (-1074).
Proof. reflexivity. Qed.

Lemma shr_m_of_loc (m : Z) (l : location) : shr_m (shr_record_of_loc m l) = m.
Proof. destruct l as [|[]]; reflexivity. Qed.

(** Shifting a positive mantissa to its canonical exponent leaves it
    positive, above -1074. *)
Lemma shr_fexp_pos (pm : positive) (e : Z) (l : location) :
  -1074 <= e ->
  exists mrs' e',
    shr_fexp prec emax (Zpos pm) e l = (mrs', e') /\ 0 < shr_m mrs' /\ -1074 <= e'.
Proof.
  intros He. unfold shr_fexp, shr. rewrite fexp64. cbn [Zdigits2].
  pose proof (digits2_pos_bounds pm) as [Hlo _].
  set (d := Zpos (digits2_pos pm)) in *.
  destruct (Z.max (d + e - 53) (-1074) - e) as [|p|p] eqn:Hn.
  - do 2 eexists. split; [reflexivity|]. rewrite shr_m_of_loc. lia.
  - do 2 eexists. split; [reflexivity|].
    rewrite iter_pos_shr_m, shr_m_of_loc by (rewrite shr_m_of_loc; lia).
    split; [|lia].
    apply Z.div_str_pos. split; [apply Z.pow_pos_nonneg; lia|].
    apply Z.le_trans with (2 ^ (d - 1)); [|exact Hlo].
    apply Z.pow_le_mono_r; lia.
  - do 2 eexists. split; [reflexivity|]. rewrite shr_m_of_loc. lia.
Qed.

Lemma round_nearest_even_ge (m : Z) (l : location) : m <= round_nearest_even m l.
Proof.
  destruct l as [|[]]; cbn [round_nearest_even]; try lia.
  destruct (Z.even m); lia.
Qed.

(** Rounding a positive mantissa never gives a zero or a NaN, and keeps
    the sign. *)
Lemma binary_round_aux_sign (s : bool) (pm : positive) (e : Z) (l : location) :
  -1074 <= e ->
  (exists m' e', binary_round_aux prec emax s (Zpos pm) e l = S754_finite s m' e')
  \/ binary_round_aux prec emax s (Zpos pm) e l = S754_infinity s.
Proof.
  intros He. unfold binary_round_aux.
  destruct (shr_fexp_pos pm e l He) as (mrs1 & e1 & -> & Hm1 & He1).
  pose proof (round_nearest_even_ge (shr_m mrs1) (loc_of_shr_record mrs1)) as Hr.
  destruct (round_nearest_even (shr_m mrs1) (loc_of_shr_record mrs1)) as [|pm2|pm2];
    try lia.
  destruct (shr_fexp_pos pm2 e1 loc_Exact He1) as (mrs2 & e2 & -> & Hm2 & He2).
  destruct (shr_m mrs2) as [|m'|m']; try lia.
  destruct (e2 <=? emax - prec); [left; eauto|right; reflexivity].
Qed.

Lemma iter_xO (m d : positive) : Zpos (Pos.iter xO m d) = Zpos m * 2 ^ Zpos d.
Proof.
  revert m. induction d as [|d IH] using Pos.peano_ind; intros m.
  - cbn. lia.
  - rewrite Pos.iter_succ, Pos2Z.inj_xO, IH, Pos2Z.inj_succ, Z.pow_succ_r by lia. lia.
Qed.

Lemma shl_align_fst (m : positive) (e e' : Z) :
  e' <= e -> Zpos (fst (shl_align m e e')) = Zpos m * 2 ^ (e - e').
Proof.
  intros Hle. unfold shl_align.
  destruct (e' - e) as [|p|p] eqn:Hd; cbn [fst].
  - replace (e - e') with 0 by lia. lia.
  - lia.
  - rewrite iter_xO. f_equal. f_equal. lia.
Qed.

Lemma shl_align_snd (m : positive) (e e' : Z) :
  snd (shl_align m e e') = Z.min e e'.
Proof.
  unfold shl_align. destruct (e' - e) as [|p|p] eqn:Hd; cbn [snd]; lia.
Qed.

Lemma binary_round_sign (s : bool) (pm : positive) (e : Z) :
  -1074 <= e ->
  (exists m' e', binary_round prec emax s pm e = S754_finite s m' e')
  \/ binary_round prec emax s pm e = S754_infinity s.
Proof.
  intros He. unfold binary_round.
  destruct (shl_align pm e _) as [mz ez] eqn:Hs.
  apply binary_round_aux_sign.
  pose proof (shl_align_snd pm e (fexp prec emax (Zpos (digits2_pos pm) + e))) as H.
  rewrite Hs in H. cbn [snd] in H. rewrite fexp64 in H. lia.
Qed.

Lemma SFabs_binary_round (s : bool) (pm : positive) (e : Z) :
  SFabs (binary_round prec emax s pm e) = binary_round prec emax false pm e.
Proof.
  unfold binary_round. destruct (shl_align pm e _) as [mz ez].
  unfold binary_round_aux.
  destruct (shr_fexp prec emax (Zpos mz) ez loc_Exact) as [mrs1 e1].
  destruct (shr_fexp prec emax _ e1 loc_Exact) as [mrs2 e2].
  destruct (shr_m mrs2); [reflexivity| |reflexivity].
  destruct (e2 <=? emax - prec); reflexivity.
Qed.

Lemma bounded_inv (m : positive) (e : Z) :
  bounded prec emax m e = true ->
  Z.max (Zpos (digits2_pos m) + e - 53) (-1074) = e.
Proof.
  unfold bounded, canonical_mantissa. rewrite fexp64.
  intros H. apply andb_true_iff in H as [H _]. now apply Z.eqb_eq in H.
Qed.

(** Of two positive binary64 numbers, the smaller one has the smaller
    mantissa once both are aligned on the smaller exponent. *)
Lemma aligned_lt (mx my : positive) (ex ey ez : Z) :
  bounded prec emax mx ex = true ->
  bounded prec emax my ey = true ->
  SFcompare (S754_finite false mx ex) (S754_finite false my ey) = Some Lt ->
  ez = Z.min ey ex ->
  exists d,
    Zpos (fst (shl_align my ey ez)) - Zpos (fst (shl_align mx ex ez)) = Zpos d.
Proof.
  intros Hx Hy Hc ->. apply bounded_inv in Hx, Hy.
  pose proof (digits2_pos_bounds mx) as [_ Hux].
  pose proof (digits2_pos_bounds my) as [Hly _].
  cbn [SFcompare] in Hc.
  rewrite !shl_align_fst by lia.
  assert (Hgt : Zpos mx * 2 ^ (ex - Z.min ey ex) < Zpos my * 2 ^ (ey - Z.min ey ex)).
  { destruct (Z.compare_spec ex ey) as [He|He|He]; [| |discriminate Hc].
    - subst ey. rewrite Z.min_id, Z.sub_diag. cbn [Z.pow].
      injection Hc as Hc.
      assert (Hlt : (mx < my)%positive) by (apply Pos.compare_lt_iff; exact Hc).
      lia.
    - replace (Z.min ey ex) with ex by lia. rewrite Z.sub_diag. cbn [Z.pow].
      assert (Hdy : Zpos (digits2_pos my) = 53) by lia.
      assert (Hdx : Zpos (digits2_pos mx) <= 53) by lia.
      rewrite Hdy in Hly. cbn in Hly.
      assert (Hmx : Zpos mx < 2 ^ 53).
      { eapply Z.lt_le_trans; [exact Hux|]. apply Z.pow_le_mono_r; lia. }
      assert (H2 : 2 ^ 1 <= 2 ^ (ey - ex)) by (apply Z.pow_le_mono_r; lia).
      cbn in Hmx. cbn in H2. nia. }
  destruct (Zpos my * 2 ^ (ey - Z.min ey ex) - Zpos mx * 2 ^ (ex - Z.min ey ex))
    as [|d|d] eqn:Hd; [lia|now exists d|lia].
Qed.

Lemma SFltb_zero_positive (x : spec_float) :
  SFltb (S754_zero false) x = true <-> SFpositive x.
Proof.
  unfold SFpositive. split.
  - destruct x as [[]|[]| |[] m e]; cbn; try discriminate; eauto.
  - intros [(m & e & ->)| ->]; reflexivity.
Qed.

Lemma SFltb_negative_zero (x : spec_float) :
  SFltb x (S754_zero false) = true <-> SFnegative x.
Proof.
  unfold SFnegative. split.
  - destruct x as [[]|[]| |[] m e]; cbn; try discriminate; eauto.
  - intros [(m & e & ->)| ->]; reflexivity.
Qed.

Lemma SFeqb_positive (x : spec_float) : SFpositive x -> SFeqb x x = true.
Proof.
  intros [(m & e & ->)| ->]; [|reflexivity].
  unfold SFeqb. cbn [SFcompare]. rewrite Z.compare_refl.
  pose proof (Pos.compare_refl m) as Hm. unfold Pos.compare in Hm.
  now rewrite Hm.
Qed.

(** The difference of two magnitudes, the larger one first, is positive. *)
Lemma SFsub_abs_positive (x y : spec_float) :
  valid_binary x = true ->
  valid_binary y = true ->
  SFltb (SFabs x) (SFabs y) = true ->
  SFpositive (SF64sub (SFabs y) (SFabs x)).
Proof.
  intros Hx Hy Hlt. unfold SFltb in Hlt.
  destruct (SFcompare (SFabs x) (SFabs y)) as [[]|] eqn:Hc; try discriminate Hlt.
  clear Hlt.
  destruct x as [sx|sx| |sx mx ex], y as [sy|sy| |sy my ey];
    cbn [SFabs] in *; try discriminate Hc; unfold SF64sub; cbn [SFsub].
  - now right.
  - left. eauto.
  - now right.
  - cbn [valid_binary] in Hx, Hy.
    destruct (aligned_lt mx my ex ey _ Hx Hy Hc eq_refl) as (d & Hd).
    cbn [cond_Zopp]. rewrite Hd. cbn [binary_normalize].
    apply bounded_inv in Hx, Hy.
    destruct (binary_round_sign false d (Z.min ey ex)) as [H|H]; [lia| |].
    + left. exact H.
    + right. exact H.
Qed.

Lemma binary_round_abs_positive (s : bool) (d : positive) (e : Z) :
  -1074 <= e ->
  (if s then SFnegative else SFpositive) (binary_round prec emax s d e).
Proof.
  intros He. destruct (binary_round_sign s d e He) as [(m' & e' & H)|H];
    rewrite H; destruct s; ((left; eauto; fail) || (right; reflexivity)).
Qed.

(** Adding two finite numbers of opposite signs: the sum takes the sign of
    the one that is larger in magnitude, and its magnitude is the difference
    of the magnitudes. *)
Lemma SFadd_opposite_finite (sx : bool) (mx my : positive) (ex ey : Z) :
  bounded prec emax mx ex = true ->
  bounded prec emax my ey = true ->
  SFcompare (S754_finite false mx ex) (S754_finite false my ey) = Some Lt ->
  (if negb sx then SFnegative else SFpositive)
    (SF64add (S754_finite sx mx ex) (S754_finite (negb sx) my ey)) /\
  SFabs (SF64add (S754_finite sx mx ex) (S754_finite (negb sx) my ey))
  = SF64sub (S754_finite false my ey) (S754_finite false mx ex).
Proof.
  intros Hx Hy Hc.
  destruct (aligned_lt mx my ex ey (Z.min ex ey) Hx Hy Hc (Z.min_comm _ _)) as (d & Hd).
  apply bounded_inv in Hx, Hy.
  assert (He : -1074 <= Z.min ex ey) by lia.
  unfold SF64add, SF64sub. cbn [SFadd SFsub].
  change (IntDef.Z.min ex ey) with (Z.min ex ey).
  change (IntDef.Z.min ey ex) with (Z.min ey ex).
  rewrite (Z.min_comm ey ex). cbn [cond_Zopp]. rewrite Hd. cbn [binary_normalize].
  destruct sx; cbn [negb cond_Zopp].
  - replace (- Zpos (fst (shl_align mx ex (Z.min ex ey)))
             + Zpos (fst (shl_align my ey (Z.min ex ey)))) with (Zpos d) by lia.
    cbn [binary_normalize]. rewrite SFabs_binary_round. split; [|reflexivity].
    apply (binary_round_abs_positive false d _ He).
  - replace (Zpos (fst (shl_align mx ex (Z.min ex ey)))
             + - Zpos (fst (shl_align my ey (Z.min ex ey)))) with (Zneg d) by lia.
    cbn [binary_normalize]. rewrite SFabs_binary_round. split; [|reflexivity].
    apply (binary_round_abs_positive true d _ He).
Qed.

Lemma SFadd_opposite (x y : spec_float) :
  valid_binary x = true ->
  valid_binary y = true ->
  SFltb (SFabs x) (SFabs y) = true ->
  (SFpositive x /\ SFnegative y -> SFnegative (SF64add x y)) /\
  (SFnegative x /\ SFpositive y -> SFpositive (SF64add x y)) /\
  (SFpositive x /\ SFnegative y \/ SFnegative x /\ SFpositive y ->
   SFabs (SF64add x y) = SF64sub (SFabs y) (SFabs x)).
Proof.
  intros Hx Hy Hlt. unfold SFltb in Hlt.
  destruct (SFcompare (SFabs x) (SFabs y)) as [[]|] eqn:Hc; try discriminate Hlt.
  clear Hlt.
  assert (Hcase : forall sx : bool,
             (if sx then SFnegative x else SFpositive x) ->
             (if sx then SFpositive y else SFnegative y) ->
             (if negb sx then SFnegative else SFpositive) (SF64add x y) /\
             SFabs (SF64add x y) = SF64sub (SFabs y) (SFabs x)).
  { intros sx Hsx Hsy.
    assert (Hex : (exists m e, x = S754_finite sx m e) \/ x = S754_infinity sx)
      by (destruct sx; exact Hsx).
    assert (Hey : (exists m e, y = S754_finite (negb sx) m e) \/ y = S754_infinity (negb sx))
      by (destruct sx; exact Hsy).
    destruct Hex as [(mx & ex & ->)| ->]; destruct Hey as [(my & ey & ->)| ->];
      cbn [SFabs] in Hc; try discriminate Hc.
    - now apply SFadd_opposite_finite.
    - unfold SF64add, SF64sub. cbn [SFadd SFsub SFabs]. split; [|reflexivity].
      destruct sx; right; reflexivity. }
  split; [|split].
  - intros [Hp Hn]. exact (proj1 (Hcase false Hp Hn)).
  - intros [Hn Hp]. exact (proj1 (Hcase true Hn Hp)).
  - intros [[Hp Hn]|[Hn Hp]]; [exact (proj2 (Hcase false Hp Hn))|exact (proj2 (Hcase true Hn Hp))].
Qed.

(** The difference of two magnitudes, the smaller one first, is negative. *)
Lemma SFsub_abs_negative (x y : spec_float) :
  valid_binary x = true ->
  valid_binary y = true ->
  SFltb (SFabs x) (SFabs y) = true ->
  SFnegative (SF64sub (SFabs x) (SFabs y)).
Proof.
  intros Hx Hy Hlt. unfold SFltb in Hlt.
  destruct (SFcompare (SFabs x) (SFabs y)) as [[]|] eqn:Hc; try discriminate Hlt.
  clear Hlt.
  destruct x as [sx|sx| |sx mx ex], y as [sy|sy| |sy my ey];
    cbn [SFabs] in *; try discriminate Hc; unfold SF64sub; cbn [SFsub negb].
  - now right.
  - left. eauto.
  - now right.
  - cbn [valid_binary] in Hx, Hy.
    destruct (aligned_lt mx my ex ey (Z.min ex ey) Hx Hy Hc (Z.min_comm _ _)) as (d & Hd).
    apply bounded_inv in Hx, Hy.
    change (IntDef.Z.min ex ey) with (Z.min ex ey). cbn [cond_Zopp].
    replace (Zpos (fst (shl_align mx ex (Z.min ex ey)))
             - Zpos (fst (shl_align my ey (Z.min ex ey)))) with (Zneg d) by lia.
    cbn [binary_normalize].
    apply (binary_round_abs_positive true d). lia.
Qed.

Lemma SFnegative_not_positive (x : spec_float) :
  SFnegative x ->
  SFltb (S754_zero false) x = false /\ SFeqb x (S754_zero false) = false.
Proof. intros [(m & e & ->)| ->]; split; reflexivity. Qed.
End Binary64Facts.

Lemma Prim2SF_zero : Prim2SF 0%float = S754_zero false.
Proof. reflexivity. Qed.

#[export] Instance binary64_laws : Float64Laws float.
Proof.
  split; intros x; cbn [flt feq f0 binary64];
    rewrite ?ltb_spec, ?eqb_spec, Prim2SF_zero;
    destruct (Prim2SF x) as [[]|[]| |[] m e]; cbv; congruence.
Qed.

Lemma ltb_zero_positive (x : float) :
  (0 <? x)%float = true <-> SFpositive (Prim2SF x).
Proof.
  rewrite ltb_spec, Prim2SF_zero. apply Binary64Facts.SFltb_zero_positive.
Qed.

Lemma ltb_negative_zero (x : float) :
  (x <? 0)%float = true <-> SFnegative (Prim2SF x).
Proof.
  rewrite ltb_spec, Prim2SF_zero. apply Binary64Facts.SFltb_negative_zero.
Qed.

#[export] Instance binary64_magnitudes : Float64Magnitudes float.
Proof.
  split; intros x y; unfold opposite; cbn [flt feq fabs fadd fsub f0 binary64].
  - rewrite ltb_zero_positive, ltb_spec, sub_spec, !abs_spec.
    apply Binary64Facts.SFsub_abs_positive; apply Prim2SF_valid.
  - rewrite ltb_spec, !abs_spec. intros Hlt.
    rewrite (ltb_spec 0), eqb_spec, Prim2SF_zero, sub_spec, !abs_spec.
    apply Binary64Facts.SFnegative_not_positive.
    apply Binary64Facts.SFsub_abs_negative; trivial; apply Prim2SF_valid.
  - rewrite ltb_zero_positive, !ltb_negative_zero, ltb_spec, add_spec, !abs_spec.
    intros Hx Hy Hlt.
    now apply (Binary64Facts.SFadd_opposite _ _ (Prim2SF_valid x) (Prim2SF_valid y) Hlt).
  - rewrite !ltb_zero_positive, ltb_negative_zero, ltb_spec, add_spec, !abs_spec.
    intros Hx Hy Hlt.
    now apply (Binary64Facts.SFadd_opposite _ _ (Prim2SF_valid x) (Prim2SF_valid y) Hlt).
  - rewrite orb_true_iff, !andb_true_iff, !ltb_zero_positive, !ltb_negative_zero.
    rewrite ltb_spec, eqb_spec, sub_spec, !abs_spec, add_spec.
    intros Ho Hlt.
    destruct (Binary64Facts.SFadd_opposite _ _ (Prim2SF_valid x) (Prim2SF_valid y) Hlt)
      as (_ & _ & Habs).
    rewrite (Habs Ho). apply Binary64Facts.SFeqb_positive.
    apply Binary64Facts.SFsub_abs_positive; trivial; apply Prim2SF_valid.
Qed.

Ltac unfold_M :=
  unfold mbind, M_bind, mret, M_ret, gets, modify, fatal, addPnl, addBalance, load, store in *.

Section ControlFlow.
Context {F : Type} `{!Float64 F} `{!Models F}.
Local Open Scope f64_scope.
Implicit Types (b : DiribitSimBroker F) (symbol : string) (p : Position.t F).

(** [getPosition] finds the position of a known symbol and leaves the
    broker as it is. *)
Lemma getPosition_known b symbol p :
  positions b !! symbol = Some p ->
  getPosition symbol b = Returns (Some symbol) b.
Proof. intros Hp. unfold getPosition. now rewrite Hp. Qed.

(** [getPosition] files a fresh position under an unknown symbol. *)
Lemma getPosition_unknown b symbol :
  positions b !! symbol = None ->
  getPosition symbol b =
    Returns (Some symbol)
            (set_positions (<[symbol := freshPosition symbol]> (positions b)) b).
Proof. intros Hp. unfold getPosition. now rewrite Hp. Qed.

(** In every case the pointer is not nil, the position is in the map
    afterwards, and nothing but the map has changed. *)
Lemma getPosition_returns b symbol :
  exists b',
    getPosition symbol b = Returns (Some symbol) b' /\
    positions b' !! symbol = Some (positionOf b symbol) /\
    b' = set_positions (positions b') b /\
    (forall k, k <> symbol -> positions b' !! k = positions b !! k).
Proof.
  unfold positionOf. destruct (positions b !! symbol) as [p|] eqn:Hp.
  - exists b. rewrite (getPosition_known _ _ _ Hp). repeat split; trivial.
    now destruct b.
  - eexists. rewrite (getPosition_unknown _ _ Hp). repeat split.
    + cbn. apply lookup_insert_eq.
    + intros k Hk. cbn. now apply lookup_insert_ne.
Qed.
End ControlFlow.

Section Ledger.
Context {F : Type} `{!Float64 F} `{!Models F} `{!Float64Laws F}.
Local Open Scope f64_scope.
Implicit Types (b : DiribitSimBroker F) (symbol k : string) (p : Position.t F).

(** A fill that goes against the position passes both guards of
    [closePosition] and fails the guard of [addPosition]. *)
Lemma opposite_guards (positionSize size : F) :
  opposite positionSize size = true ->
  (positionSize =? f0) = false /\
  ((positionSize >? f0) && (size >? f0) || (positionSize <? f0) && (size <? f0)) = false.
Proof.
  assert (Hneg : forall x : F, (x <? f0) = true -> (x >? f0) = false).
  { intros x Hx. destruct (x >? f0) eqn:E; [|reflexivity].
    apply flt_pos_not_neg in E. congruence. }
  unfold opposite. intros Ho.
  apply orb_true_iff in Ho as [Ho|Ho]; apply andb_true_iff in Ho as [H1 H2].
  - split; [now apply flt_pos_nonzero|].
    now rewrite (flt_pos_not_neg _ H1), (Hneg _ H2), andb_false_r.
  - split; [now apply flt_neg_nonzero|].
    now rewrite (Hneg _ H1), (flt_pos_not_neg _ H2), andb_false_r.
Qed.

(** Over-close: the whole position is realised, the rest opens at [price]. *)
Lemma closePosition_over b k p size price :
  positions b !! k = Some p ->
  opposite (Position.Size p) size = true ->
  (fabs size - fabs (Position.Size p) >? f0) = true ->
  closePosition (Some k) size price b =
    Returns None
      (set_positions
         (<[k := Position.mk F (Position.Symbol p) (Position.OpenI p) (Position.OpenPrice p)
                             (Position.Size p + size) price]> (positions b))
         (set_balance
            (balance b + CalcPnl (Position.Side p) (fabs (Position.Size p))
                                 (Position.AvgPrice p) price) b)).
Proof.
  intros Hp Ho Hr. destruct (opposite_guards _ _ Ho) as [Hz Hg].
  unfold closePosition. unfold_M. rewrite Hp, Hz, Hg, Hr. reflexivity.
Qed.

(** Exact close: the position is realised and reset. *)
Lemma closePosition_exact b k p size price :
  positions b !! k = Some p ->
  opposite (Position.Size p) size = true ->
  (fabs size - fabs (Position.Size p) >? f0) = false ->
  (fabs size - fabs (Position.Size p) =? f0) = true ->
  closePosition (Some k) size price b =
    Returns None
      (set_positions
         (<[k := Position.mk F (Position.Symbol p) (Position.OpenI p) (Position.OpenPrice p)
                             f0 f0]> (positions b))
         (set_balance
            (balance b + CalcPnl (Position.Side p) (fabs size)
                                 (Position.AvgPrice p) price) b)).
Proof.
  intros Hp Ho Hr He. destruct (opposite_guards _ _ Ho) as [Hz Hg].
  unfold closePosition. unfold_M. rewrite Hp, Hz, Hg, Hr, He. reflexivity.
Qed.

(** Partial close, as the code has it: the quantity handed to [CalcPnl] is
    the size of the whole position. *)
Lemma closePosition_partial b k p size price :
  positions b !! k = Some p ->
  opposite (Position.Size p) size = true ->
  (fabs size - fabs (Position.Size p) >? f0) = false ->
  (fabs size - fabs (Position.Size p) =? f0) = false ->
  closePosition (Some k) size price b =
    Returns None
      (set_positions
         (<[k := Position.mk F (Position.Symbol p) (Position.OpenI p) (Position.OpenPrice p)
                             (Position.Size p + size) (Position.AvgPrice p)]> (positions b))
         (set_balance
            (balance b + CalcPnl (Position.Side p) (fabs (Position.Size p))
                                 (Position.AvgPrice p) price) b)).
Proof.
  intros Hp Ho Hr He. destruct (opposite_guards _ _ Ho) as [Hz Hg].
  unfold closePosition. unfold_M. rewrite Hp, Hz, Hg, Hr, He. reflexivity.
Qed.

(** A fill that does not go against the position is added to it. *)
Lemma addPosition_same b k p size price :
  positions b !! k = Some p ->
  opposite (Position.Size p) size = false ->
  addPosition (Some k) size price b =
    Returns None
      (set_positions
         (<[k := Position.mk F (Position.Symbol p) (Position.OpenI p) (Position.OpenPrice p)
                  (Position.Size p + size)
                  (fabs (Position.Size p + size) /
                     ((if (Position.Size p !=? f0) && (Position.AvgPrice p !=? f0)
                       then fabs (Position.Size p) / Position.AvgPrice p else f0)
                      + fabs size / price))]> (positions b)) b).
Proof.
  intros Hp Ho. unfold addPosition. unfold_M. rewrite Hp.
  replace ((Position.Size p <? f0) && (size >? f0) || (Position.Size p >? f0) && (size <? f0))
    with (opposite (Position.Size p) size) by (unfold opposite; apply orb_comm).
  rewrite Ho. reflexivity.
Qed.

(** [updatePosition] looks the position up (creating it if need be) and
    dispatches on [opposite]. *)
Lemma updatePosition_dispatch b symbol size price :
  exists b1,
    getPosition symbol b = Returns (Some symbol) b1 /\
    positions b1 !! symbol = Some (positionOf b symbol) /\
    updatePosition symbol size price b =
      (if opposite (Position.Size (positionOf b symbol)) size
       then closePosition (Some symbol) size price;; mret tt
       else addPosition (Some symbol) size price;; mret tt) b1.
Proof.
  destruct (getPosition_returns b symbol) as (b1 & Hg & Hp & _).
  exists b1. repeat split; trivial.
  unfold updatePosition. unfold mbind at 1. unfold M_bind at 1. rewrite Hg.
  unfold mbind at 1. unfold M_bind at 1. unfold load. rewrite Hp. reflexivity.
Qed.
End Ledger.

Section Closing.
Context {F : Type} `{!Float64 F} `{!Models F} `{!Float64Laws F} `{!Float64Magnitudes F}.
Local Open Scope f64_scope.
Implicit Types (b : DiribitSimBroker F) (k : string) (p : Position.t F).

(** C6.  Over-close.  When the fill goes against a position and is
    strictly larger in magnitude, [closePosition] credits the PnL of the
    whole prior position (entry at the old average price, exit at [price])
    once, sets the average price to [price] and the size to
    [oldSize + size]; the new size is on the other side of zero than the old
    one, and its magnitude is the excess [|size| - |oldSize|]. *)
Theorem closePosition_over_close b k p size price :
  positions b !! k = Some p ->
  opposite (Position.Size p) size = true ->
  (fabs (Position.Size p) <? fabs size) = true ->
  closePosition (Some k) size price b =
    Returns None
      (set_positions
         (<[k := Position.mk F (Position.Symbol p) (Position.OpenI p) (Position.OpenPrice p)
                             (Position.Size p + size) price]> (positions b))
         (set_balance
            (balance b + CalcPnl (Position.Side p) (fabs (Position.Size p))
                                 (Position.AvgPrice p) price) b)) /\
  opposite (Position.Size p) (Position.Size p + size) = true /\
  (fabs (Position.Size p + size) =? fabs size - fabs (Position.Size p)) = true.
Proof.
  intros Hp Ho Hmag. split; [|split].
  - apply (closePosition_over b k p size price Hp Ho).
    now apply fsub_fabs_pos.
  - unfold opposite in *.
    apply orb_true_iff in Ho as [Ho|Ho]; apply andb_true_iff in Ho as [Hs Hz].
    + now rewrite Hs, (fadd_opposite_neg _ _ Hs Hz Hmag).
    + rewrite Hs, (fadd_opposite_pos _ _ Hs Hz Hmag). cbn. apply orb_true_r.
  - now apply fadd_opposite_abs.
Qed.

(** Partial close, for every fill that goes against the position and is
    strictly smaller in magnitude: the average price is kept, the size
    becomes [oldSize + size], and the PnL credited is the one of the whole
    position [|oldSize|]. *)
Lemma closePosition_partial_close b k p size price :
  positions b !! k = Some p ->
  opposite (Position.Size p) size = true ->
  (fabs size <? fabs (Position.Size p)) = true ->
  closePosition (Some k) size price b =
    Returns None
      (set_positions
         (<[k := Position.mk F (Position.Symbol p) (Position.OpenI p) (Position.OpenPrice p)
                             (Position.Size p + size) (Position.AvgPrice p)]> (positions b))
         (set_balance
            (balance b + CalcPnl (Position.Side p) (fabs (Position.Size p))
                                 (Position.AvgPrice p) price) b)).
Proof.
  intros Hp Ho Hmag. destruct (fsub_fabs_neg _ _ Hmag) as [Hr He].
  exact (closePosition_partial b k p size price Hp Ho Hr He).
Qed.
End Closing.

Section Fills.
Context {F : Type} `{!Float64 F} `{!Models F} `{!Float64Laws F}.
Local Open Scope f64_scope.
Implicit Types (b : DiribitSimBroker F) (symbol k : string) (p : Position.t F).

(** What [updatePosition] does to the balance: nothing when the fill is
    added to the position, one credit of realised PnL when it closes. *)
Lemma updatePosition_balance b symbol size price :
  exists b2,
    updatePosition symbol size price b = Returns tt b2 /\
    if opposite (Position.Size (positionOf b symbol)) size
    then exists quantity,
        (quantity = fabs (Position.Size (positionOf b symbol)) \/ quantity = fabs size) /\
        balance b2 = balance b + CalcPnl (Position.Side (positionOf b symbol)) quantity
                                         (Position.AvgPrice (positionOf b symbol)) price
    else balance b2 = balance b.
Proof.
  destruct (updatePosition_dispatch b symbol size price) as (b1 & Hg & Hp & ->).
  destruct (getPosition_returns b symbol) as (b1' & Hg' & _ & Hb1 & _).
  rewrite Hg in Hg'. injection Hg' as <-.
  assert (Hbal : balance b1 = balance b) by (rewrite Hb1; reflexivity).
  set (old := positionOf b symbol) in *.
  destruct (opposite (Position.Size old) size) eqn:Ho.
  - destruct (fabs size - fabs (Position.Size old) >? f0) eqn:Hr;
      [|destruct (fabs size - fabs (Position.Size old) =? f0) eqn:He].
    + eexists. unfold mbind at 1. unfold M_bind at 1.
      rewrite (closePosition_over _ _ _ _ _ Hp Ho Hr). split; [reflexivity|].
      eexists. split; [left; reflexivity|]. cbn. now rewrite Hbal.
    + eexists. unfold mbind at 1. unfold M_bind at 1.
      rewrite (closePosition_exact _ _ _ _ _ Hp Ho Hr He). split; [reflexivity|].
      eexists. split; [right; reflexivity|]. cbn. now rewrite Hbal.
    + eexists. unfold mbind at 1. unfold M_bind at 1.
      rewrite (closePosition_partial _ _ _ _ _ Hp Ho Hr He). split; [reflexivity|].
      eexists. split; [left; reflexivity|]. cbn. now rewrite Hbal.
  - eexists. unfold mbind at 1. unfold M_bind at 1.
    rewrite (addPosition_same _ _ _ _ _ Hp Ho). split; [reflexivity|].
    cbn. exact Hbal.
Qed.

(** A market order that is matched without an error has been filled: the
    fee is taken from the balance, then the position is updated. *)
Lemma matchMarketOrder_filled b order b' :
  Order.IsOpen order = true ->
  matchMarketOrder order b = Returns None b' ->
  exists b1,
    getPosition (Order.Symbol order) b = Returns (Some (Order.Symbol order)) b1 /\
    updatePosition (Order.Symbol order)
      (signedSize (Order.Direction order) (Order.Amount order))
      (executionPrice (Order.Direction order) (data b))
      (set_balance
         (balance b +
          - (Order.Amount order / executionPrice (Order.Direction order) (data b)
             * takerFeeRate b)) b1) = Returns tt b'.
Proof.
  intros Hopen Hm.
  destruct (getPosition_returns b (Order.Symbol order)) as (b1 & Hg & Hp & Hb1 & _).
  exists b1. split; [exact Hg|].
  assert (Hd : data b1 = data b) by (rewrite Hb1; reflexivity).
  assert (Hbal : balance b1 = balance b) by (rewrite Hb1; reflexivity).
  assert (Hfee : takerFeeRate b1 = takerFeeRate b) by (rewrite Hb1; reflexivity).
  unfold matchMarketOrder in Hm. rewrite Hopen in Hm. cbn [negb] in Hm.
  destruct (negb _); [discriminate Hm|].
  unfold mbind at 1 in Hm. unfold M_bind at 1 in Hm. rewrite Hg in Hm.
  unfold mbind at 1 in Hm. unfold M_bind at 1 in Hm. unfold load at 1 in Hm.
  rewrite Hp in Hm.
  destruct (_ || _); [discriminate Hm|].
  unfold_M. cbv beta in Hm. rewrite ?Hd, ?Hbal in Hm.
  destruct (Order.Direction order); cbn [signedSize executionPrice];
    (destruct (flt _ _); [discriminate Hm|]);
    unfold modify in Hm; cbv beta in Hm; rewrite Hfee, Hbal in Hm;
    match type of Hm with
    | match ?u with _ => _ end = _ => destruct u as [[] b2|msg] eqn:Hu
    end; congruence.
Qed.

(** C7.  Every successful market fill debits the balance by exactly
    [amount / executionPrice * takerFeeRate], the execution price being the
    ask for a buy and the bid for a sell, in both directions alike: the
    fill is the fee debit followed by the position update, whose only
    effect on the balance is the credit of the PnL it realises when the
    fill closes (part of) the position. *)
Theorem market_fill_debits_taker_fee b id symbol direction price amount
    postOnly reduceOnly result b' :
  PlaceOrder id symbol direction OrderTypeMarket price amount postOnly reduceOnly b
    = Returns (result, None) b' ->
  let fee := amount / executionPrice direction (data b) * takerFeeRate b in
  let old := positionOf b symbol in
  (exists b1 b2,
      getPosition symbol b = Returns (Some symbol) b1 /\
      updatePosition symbol (signedSize direction amount)
        (executionPrice direction (data b))
        (set_balance (balance b + - fee) b1) = Returns tt b2 /\
      balance b' = balance b2 /\ positions b' = positions b2) /\
  (if opposite (Position.Size old) (signedSize direction amount)
   then exists quantity,
       (quantity = fabs (Position.Size old)
        \/ quantity = fabs (signedSize direction amount)) /\
       balance b' = balance b + - fee
                    + CalcPnl (Position.Side old) quantity (Position.AvgPrice old)
                              (executionPrice direction (data b))
   else balance b' = balance b + - fee).
Proof.
  intros Hplace fee old.
  unfold PlaceOrder in Hplace.
  unfold mbind at 1 in Hplace. unfold M_bind at 1 in Hplace.
  cbn [matchOrder Order.Type_] in Hplace.
  set (order := Order.mk F id symbol price amount f0 f0 direction OrderTypeMarket
                         postOnly reduceOnly OrderStatusNew) in *.
  destruct (matchMarketOrder order b) as [[e|] bm|msg] eqn:Hm;
    [unfold_M; discriminate Hplace| |discriminate Hplace].
  apply matchMarketOrder_filled in Hm as (b1 & Hg & Hu); [|reflexivity].
  cbn [order Order.Symbol Order.Direction Order.Amount] in Hg, Hu. fold fee in Hu.
  assert (Hb' : balance b' = balance bm /\ positions b' = positions bm).
  { cbn [Order.IsOpen order Order.Status] in Hplace. unfold_M.
    injection Hplace as _ <-. split; reflexivity. }
  destruct Hb' as [Hbal Hpos]. split.
  - exists b1, bm. repeat split; trivial.
  - destruct (updatePosition_balance (set_balance (balance b + - fee) b1) symbol
                (signedSize direction amount) (executionPrice direction (data b)))
      as (b2 & Hu' & Hcase).
    rewrite Hu in Hu'. injection Hu' as <-.
    assert (Hold : positionOf (set_balance (balance b + - fee) b1) symbol = old).
    { destruct (getPosition_returns b symbol) as (b1' & Hg' & Hp & _).
      rewrite Hg in Hg'. injection Hg' as <-.
      unfold positionOf at 1. cbn. now rewrite Hp. }
    rewrite Hold in Hcase. cbn [balance set_balance] in Hcase.
    now rewrite Hbal.
Qed.
End Fills.

(** One step of symbolic execution of a monadic body: reduce, read the
    position through the equation [Hp], or split on the next test. *)
Ltac run_with Hp :=
  repeat first
    [ progress cbv beta
    | rewrite Hp
    | progress unfold modify
    | match goal with |- context [if ?c then _ else _] => destruct c end ].

Section Registry.
Context {F : Type} `{!Float64 F} `{!Models F}.
Local Open Scope f64_scope.
Implicit Types (b : DiribitSimBroker F) (symbol k : string) (p : Position.t F).

Lemma closePosition_returns b k p size price :
  positions b !! k = Some p ->
  exists e b', closePosition (Some k) size price b = Returns e b' /\ sameRegistry b b'.
Proof.
  intros Hp. unfold closePosition. unfold_M. run_with Hp;
    do 2 eexists; (split; [reflexivity|]); repeat split.
Qed.

Lemma addPosition_returns b k p size price :
  positions b !! k = Some p ->
  exists e b', addPosition (Some k) size price b = Returns e b' /\
               sameRegistry b b' /\ balance b' = balance b.
Proof.
  intros Hp. unfold addPosition. unfold_M. run_with Hp;
    do 2 eexists; (split; [reflexivity|]); repeat split.
Qed.

Lemma updatePosition_returns b symbol size price :
  exists b2, updatePosition symbol size price b = Returns tt b2 /\ sameRegistry b b2.
Proof.
  destruct (getPosition_returns b symbol) as (b1 & Hg & Hp & Hb1 & _).
  assert (H1 : sameRegistry b b1) by (rewrite Hb1; repeat split).
  unfold updatePosition. unfold mbind at 1. unfold M_bind at 1. rewrite Hg.
  unfold mbind at 1. unfold M_bind at 1. unfold load. rewrite Hp.
  destruct (_ || _); unfold mbind, M_bind, mret, M_ret.
  - destruct (closePosition_returns b1 symbol _ size price Hp) as (e & b2 & -> & H2).
    exists b2. split; [reflexivity|].
    destruct H1 as (?&?&?), H2 as (?&?&?). repeat split; congruence.
  - destruct (addPosition_returns b1 symbol _ size price Hp) as (e & b2 & -> & H2 & _).
    exists b2. split; [reflexivity|].
    destruct H1 as (?&?&?), H2 as (?&?&?). repeat split; congruence.
Qed.

(** C10.  The fatal branch of [updatePosition] is never taken:
    [getPosition] returns a pointer that is not nil, to a position that is
    in the map afterwards (a fresh zero position when the symbol was
    unknown), and [updatePosition] returns instead of ending the process,
    for every broker, symbol, size and price. *)
Theorem updatePosition_never_aborts b symbol size price :
  (exists b1,
      getPosition symbol b = Returns (Some symbol) b1 /\
      positions b1 !! symbol = Some (positionOf b symbol) /\
      (positions b !! symbol = None -> positionOf b symbol = freshPosition symbol)) /\
  (exists b2, updatePosition symbol size price b = Returns tt b2) /\
  (forall msg, updatePosition symbol size price b <> Aborts msg).
Proof.
  destruct (getPosition_returns b symbol) as (b1 & Hg & Hp & _).
  destruct (updatePosition_returns b symbol size price) as (b2 & Hu & _).
  split; [|split].
  - exists b1. repeat split; trivial.
    intros Hn. unfold positionOf. now rewrite Hn.
  - now exists b2.
  - intros msg. rewrite Hu. discriminate.
Qed.

(** Matching never touches the registry, and an order that it rejects has
    cost nothing. *)
Lemma matchOrder_frame order b e b' :
  matchOrder order b = Returns e b' ->
  sameRegistry b b' /\ (is_Some e -> balance b' = balance b).
Proof.
  unfold matchOrder, matchLimitOrder, matchMarketOrder.
  destruct (getPosition_returns b (Order.Symbol order)) as (b1 & Hg & Hp & Hb1 & _).
  assert (Hf : sameRegistry b b1 /\ balance b1 = balance b)
    by (rewrite Hb1; repeat split).
  destruct Hf as (Hr & Hbal).
  destruct (Order.Type_ order), (Order.IsOpen order); cbn [negb]; unfold_M;
    try (intros [= <- <-]; repeat split; reflexivity).
  destruct (negb _); [intros [= <- <-]; repeat split; reflexivity|].
  rewrite Hg, Hp. destruct (_ || _); [intros [= <- <-]; split; [assumption|auto]|].
  destruct (Order.Direction order);
    (destruct (flt _ _); [intros [= <- <-]; split; [assumption|auto]|]);
    unfold modify; cbv beta;
    match goal with
    | |- match updatePosition ?s ?z ?q ?b0 with _ => _ end = _ -> _ =>
        destruct (updatePosition_returns b0 s z q) as (b2 & -> & H2)
    end; intros [= <- <-];
    (split; [|intros [? [=]]]);
    destruct Hr as (?&?&?), H2 as (?&?&?); cbn in *; repeat split; congruence.
Qed.
End Registry.

Section Api.
Context {F : Type} `{!Float64 F} `{!Models F}.
Local Open Scope f64_scope.
Implicit Types (b : DiribitSimBroker F) (symbol k : string) (id : N).

(** C3, as the code has it.  When matching returns an error, [PlaceOrder]
    returns that error and the state in which matching left the broker: the
    order is filed in none of the three order maps and the balance is
    untouched, so a later [GetOrder] with the identity of the rejected order
    reports not-found when that identity was fresh. *)
Theorem PlaceOrder_error_not_recorded b id symbol direction orderType price amount
    postOnly reduceOnly result e b' :
  PlaceOrder id symbol direction orderType price amount postOnly reduceOnly b
    = Returns (result, Some e) b' ->
  matchOrder (Order.mk F id symbol price amount f0 f0 direction orderType
                       postOnly reduceOnly OrderStatusNew) b
    = Returns (Some e) b' /\
  sameRegistry b b' /\
  balance b' = balance b /\
  (orders b !! id = None ->
   GetOrder symbol id b' = Returns (zeroOrder, Some ErrNotFound) b').
Proof.
  unfold PlaceOrder. unfold mbind at 1. unfold M_bind at 1.
  destruct (matchOrder _ b) as [[e'|] bm|msg] eqn:Hm; [| |discriminate].
  - unfold mret, M_ret. intros [= _ -> ->].
    destruct (matchOrder_frame _ _ _ _ Hm) as (Hr & Hbal).
    repeat split; try apply Hr; [now apply Hbal|].
    intros Hfresh. unfold GetOrder. unfold_M.
    destruct Hr as (-> & _). now rewrite Hfresh.
  - cbn [Order.IsOpen Order.Status]. unfold_M. discriminate.
Qed.

(** C8.  [GetOrder] on an identity that is not in [orders] and
    [GetPosition] on a symbol that is not in [positions] return the
    not-found error and leave the whole broker as it was. *)
Theorem lookups_of_unknown_keys b symbol symbol' id :
  orders b !! id = None ->
  positions b !! symbol = None ->
  GetOrder symbol' id b = Returns (zeroOrder, Some ErrNotFound) b /\
  GetPosition symbol b = Returns (freshPosition "", Some ErrNotFound) b.
Proof.
  intros Ho Hp. unfold GetOrder, GetPosition. unfold_M. now rewrite Ho, Hp.
Qed.

Lemma GetAccountSummary_symbol currency b :
  GetAccountSummary currency b =
    (resultBalance ← gets balance;
     position ← getPosition (currencySymbol currency);
     tick ← gets data;
     p ← load position;
     let side := Position.Side p in
     let price := match side with Buy => Tick.Ask tick | Sell => Tick.Bid tick end in
     let pnl := CalcPnl side (fabs (Position.Size p)) (Position.AvgPrice p) price in
     mret (AccountSummary.mk F resultBalance pnl (resultBalance + pnl), None)) b.
Proof. reflexivity. Qed.

(** C9.  [GetAccountSummary] writes to the position map: for a currency
    whose derived symbol has no position, it files a fresh position of size
    zero under that symbol, so that [GetPosition], which reported not-found
    before the call, succeeds after it and returns a position of size 0. *)
Theorem GetAccountSummary_creates_position b currency :
  positions b !! currencySymbol currency = None ->
  exists summary b',
    GetAccountSummary currency b = Returns (summary, None) b' /\
    positions b' =
      <[currencySymbol currency := freshPosition (currencySymbol currency)]> (positions b) /\
    GetPosition (currencySymbol currency) b
      = Returns (freshPosition "", Some ErrNotFound) b /\
    GetPosition (currencySymbol currency) b'
      = Returns (freshPosition (currencySymbol currency), None) b' /\
    Position.Size (freshPosition (F := F) (currencySymbol currency)) = f0.
Proof.
  intros Hp. rewrite GetAccountSummary_symbol.
  unfold mbind at 1. unfold M_bind at 1. unfold gets at 1.
  unfold mbind at 1. unfold M_bind at 1.
  rewrite (getPosition_unknown _ _ Hp).
  unfold_M. cbn [positions set_positions]. rewrite lookup_insert_eq.
  do 2 eexists. split; [reflexivity|].
  unfold GetPosition. unfold_M. cbn [positions set_positions].
  rewrite Hp, lookup_insert_eq. repeat split.
Qed.
End Api.

(** ** The broker on binary64 inputs *)

Section Binary64.
Context `{!Models float}.
Local Open Scope float_scope.

(** C1, at a failing input.  A long position of 500 at an average price of
    100 is reduced by a sale of 200 at 110.  The average price stays at 100
    and the size becomes 300, but the PnL credited to the balance is the one
    of the whole position of 500, not of the 200 that were closed. *)
Theorem partial_close_realises_whole_position :
  closePosition (Some "BTC-PERPETUAL") (-200) 110 (brokerHolding 500 100) =
    Returns None
      (set_balance (100 + CalcPnl Buy 500 100 110) (brokerHolding 300 100)).
Proof. vm_compute. reflexivity. Qed.

(** The same through [PlaceOrder]: with 500 long at 100, a market sale of 200
    executes at the bid of 99, pays its fee and is credited the PnL of 500. *)
Example sale_of_200_from_500 :
  exists b',
    PlaceOrder 1 "BTC-PERPETUAL" Sell OrderTypeMarket 0 200 false false
               (brokerHolding 500 100) = Returns (zeroOrder, None) b' /\
    balance b' = 100 + - (200 / 99 * 0.0009765625) + CalcPnl Buy 500 100 99 /\
    positions b' !! "BTC-PERPETUAL"
      = Some (Position.mk float "BTC-PERPETUAL" 0 0 300 100).
Proof. eexists. repeat split; vm_compute; reflexivity. Qed.

(** The over-close example of the specification: 300 long at 100, a sale of
    500 at 90 leaves a short position of 200 at 90, and the PnL is the one
    of the 300. *)
Example over_close_300_by_500 :
  closePosition (Some "BTC-PERPETUAL") (-500) 90 (brokerHolding 300 100) =
    Returns None
      (set_balance (100 + CalcPnl Buy 300 100 90) (brokerHolding (-200) 90)).
Proof. vm_compute. reflexivity. Qed.

(** The exact-close example of the specification: 500 long at 100, a sale of
    500 at 110 resets size and average price to 0 and credits the PnL of
    the 500. *)
Example exact_close_500_by_500 :
  closePosition (Some "BTC-PERPETUAL") (-500) 110 (brokerHolding 500 100) =
    Returns None
      (set_balance (100 + CalcPnl Buy 500 100 110) (brokerHolding 0 0)).
Proof. vm_compute. reflexivity. Qed.

(** Two buys from a flat position, 1000 at 100 and 1000 at 200: the average
    price is the one of the formula, here computed in binary64. *)
Example two_buys_average_price :
  exists b1 b2,
    updatePosition "BTC-PERPETUAL" 1000 100 broker0 = Returns tt b1 /\
    updatePosition "BTC-PERPETUAL" 1000 200 b1 = Returns tt b2 /\
    positions b2 !! "BTC-PERPETUAL"
      = Some (Position.mk float "BTC-PERPETUAL" 0 0 (1000 + 1000)
                          ((1000 + 1000) / (1000 / 100 + 1000 / 200))).
Proof. do 2 eexists. repeat split; vm_compute; reflexivity. Qed.

(** C4, at a failing input.  A market buy of 10.5 is not a multiple of 10,
    yet [int(10.5) % 10 = 0]: the order is filled, the fee is debited, the
    position is opened and the order is filed. *)
Theorem fractional_amount_is_filled :
  fint 10.5 = 10%Z /\
  PlaceOrder 1 "BTC-PERPETUAL" Buy OrderTypeMarket 0 10.5 false false broker0 =
    Returns (zeroOrder, None)
      (let order := Order.mk float 1 "BTC-PERPETUAL" 0 10.5 0 0 Buy OrderTypeMarket
                             false false OrderStatusNew in
       set_orders {[ 1%N := order ]}
         (set_openOrders {[ 1%N := order ]}
            (set_balance (100 + - (10.5 / 100 * 0.0009765625))
               (brokerHolding 10.5 100)))).
Proof. split; vm_compute; reflexivity. Qed.

(** C2, at a failing input.  From a flat position a market buy of 100000.5
    passes the limit test, because [int(100000.5) = 100000], and is filled:
    the position then exceeds the limit of 100000. *)
Theorem position_limit_is_exceeded :
  exists b',
    PlaceOrder 1 "BTC-PERPETUAL" Buy OrderTypeMarket 0 100000.5 false false broker0
      = Returns (zeroOrder, None) b' /\
    positions b' !! "BTC-PERPETUAL"
      = Some (Position.mk float "BTC-PERPETUAL" 0 0 100000.5 100) /\
    fint (0 + 100000.5) = PositionSizeLimit /\
    (100000 <? abs 100000.5) = true.
Proof. eexists. repeat split; vm_compute; reflexivity. Qed.

(** The limit test does reject whole amounts: from 90000, a buy of 20000 is
    rejected and leaves the broker as it was. *)
Example position_limit_90000_plus_20000 :
  PlaceOrder 1 "BTC-PERPETUAL" Buy OrderTypeMarket 0 20000 false false
             (brokerHolding 90000 100)
    = Returns (zeroOrder, Some ErrPositionLimit) (brokerHolding 90000 100).
Proof. vm_compute. reflexivity. Qed.
End Binary64.

(** ** Closed instances, with [inversePnl] standing in for [CalcPnl] *)

Section Samples.
Local Existing Instance sampleModels.
Local Open Scope float_scope.

(** For the inverse-contract PnL the credit on 500 is not the one on 200. *)
Example partial_close_credit_differs :
  (CalcPnl Buy 500 100 110 =? CalcPnl Buy 200 100 110) = false.
Proof. vm_compute. reflexivity. Qed.

(** C3 fails on the code: a market order of 15 is rejected for its size, a
    limit order is rejected as unsupported; both errors are returned,
    neither order is filed, and [GetOrder] does not find them. *)
Lemma rejected_order_is_not_found :
  PlaceOrder 1 "BTC-PERPETUAL" Buy OrderTypeMarket 0 15 false false broker0
    = Returns (zeroOrder, Some ErrInvalidSize) broker0 /\
  PlaceOrder 1 "BTC-PERPETUAL" Buy OrderTypeLimit 100 10 false false broker0
    = Returns (zeroOrder, Some ErrLimitOrder) broker0 /\
  GetOrder "BTC-PERPETUAL" 1 broker0 = Returns (zeroOrder, Some ErrNotFound) broker0.
Proof. repeat split; vm_compute; reflexivity. Qed.

Lemma PlaceOrder_error_not_recorded_witness :
  sameRegistry broker0 broker0 /\
  GetOrder "BTC-PERPETUAL" 1 broker0 = Returns (zeroOrder, Some ErrNotFound) broker0.
Proof.
  destruct (PlaceOrder_error_not_recorded broker0 1 "BTC-PERPETUAL" Buy
              OrderTypeMarket 0 15 false false zeroOrder ErrInvalidSize broker0)
    as (_ & Hr & _ & Hget).
  - vm_compute. reflexivity.
  - split; [exact Hr|]. apply Hget. vm_compute. reflexivity.
Defined.

Lemma closePosition_over_close_witness :
  closePosition (Some "BTC-PERPETUAL") (-500) 90 (brokerHolding 300 100) =
    Returns None
      (set_balance (100 + CalcPnl Buy 300 100 90) (brokerHolding (-200) 90)) /\
  opposite 300 (300 + -500) = true /\
  (abs (300 + -500) =? abs (-500) - abs 300) = true.
Proof.
  pose (p := Position.mk float "BTC-PERPETUAL" 0 0 300 100).
  assert (Hp : positions (brokerHolding 300 100) !! "BTC-PERPETUAL" = Some p)
    by (vm_compute; reflexivity).
  assert (Ho : opposite (Position.Size p) (-500) = true) by (vm_compute; reflexivity).
  assert (Hmag : flt (fabs (Position.Size p)) (fabs (-500)) = true)
    by (vm_compute; reflexivity).
  destruct (closePosition_over_close (brokerHolding 300 100) "BTC-PERPETUAL" p (-500) 90
              Hp Ho Hmag) as (Hclose & Hside & Habs).
  split; [|split; [exact Hside|exact Habs]].
  rewrite Hclose. vm_compute. reflexivity.
Defined.

Lemma market_fill_debits_taker_fee_witness :
  let order := Order.mk float 1 "BTC-PERPETUAL" 0 10 0 0 Buy OrderTypeMarket
                        false false OrderStatusNew in
  let b' := set_orders {[ 1%N := order ]}
              (set_openOrders {[ 1%N := order ]}
                 (set_balance (100 + - (10 / 100 * 0.0009765625))
                    (brokerHolding 10 100))) in
  PlaceOrder 1 "BTC-PERPETUAL" Buy OrderTypeMarket 0 10 false false broker0
    = Returns (zeroOrder, None) b' /\
  balance b' = 100 + - (10 / 100 * 0.0009765625).
Proof.
  intros order b'.
  assert (H : PlaceOrder 1 "BTC-PERPETUAL" Buy OrderTypeMarket 0 10 false false broker0
              = Returns (zeroOrder, None) b') by (vm_compute; reflexivity).
  split; [exact H|].
  exact (proj2 (market_fill_debits_taker_fee broker0 1 "BTC-PERPETUAL" Buy 0 10
                  false false zeroOrder b' H)).
Defined.

Lemma lookups_of_unknown_keys_witness :
  GetOrder "ETH-PERPETUAL" 7 (brokerHolding 500 100)
    = Returns (zeroOrder, Some ErrNotFound) (brokerHolding 500 100) /\
  GetPosition "ETH-PERPETUAL" (brokerHolding 500 100)
    = Returns (freshPosition "", Some ErrNotFound) (brokerHolding 500 100).
Proof.
  apply (lookups_of_unknown_keys (brokerHolding 500 100)); vm_compute; reflexivity.
Defined.

Lemma GetAccountSummary_creates_position_witness :
  exists summary b',
    GetAccountSummary "BTC" broker0 = Returns (summary, None) b' /\
    positions b' = <[ "BTC-PERPETUAL" := freshPosition "BTC-PERPETUAL" ]> ∅ /\
    GetPosition "BTC-PERPETUAL" broker0
      = Returns (freshPosition "", Some ErrNotFound) broker0 /\
    GetPosition "BTC-PERPETUAL" b'
      = Returns (freshPosition "BTC-PERPETUAL", None) b' /\
    Position.Size (freshPosition (F := float) "BTC-PERPETUAL") = 0.
Proof.
  assert (H : positions broker0 !! currencySymbol "BTC" = None)
    by (vm_compute; reflexivity).
  exact (GetAccountSummary_creates_position broker0 "BTC" H).
Defined.
End Samples.

(** ** The average price of two fills *)

Module Binary64Sums.

Lemma SFadd_zero_l (x : spec_float) :
  SFeqb x (S754_zero false) = false -> SF64add (S754_zero false) x = x.
Proof.
  destruct x as [[]|[]| |[] m e]; try reflexivity; cbv; discriminate.
Qed.

(** Rounding tags its result with the sign it is given. *)
Lemma binary_round_aux_shape (s : bool) (m e : Z) (l : location) :
  let r := binary_round_aux prec emax s m e l in
  r = S754_zero s \/ (exists m' e', r = S754_finite s m' e') \/ r = S754_infinity s
  \/ r = S754_nan.
Proof.
  unfold binary_round_aux.
  destruct (shr_fexp prec emax m e l) as [mrs1 e1].
  destruct (shr_fexp prec emax _ e1 loc_Exact) as [mrs2 e2].
  destruct (shr_m mrs2) as [|m'|m']; [now left| |now do 3 right].
  destruct (e2 <=? emax - prec)%Z; [right; left; eauto|do 2 right; now left].
Qed.

Lemma SFadd_zero_div (x y : spec_float) :
  SFpositive x -> SFpositive y ->
  SF64add (S754_zero false) (SF64div x y) = SF64div x y.
Proof.
  intros [(mx & ex & ->)| ->] [(my & ey & ->)| ->]; try reflexivity.
  unfold SF64div. cbn [SFdiv xorb].
  destruct (SFdiv_core_binary prec emax (Zpos mx) ex (Zpos my) ey) as [[mz ez] lz].
  destruct (binary_round_aux_shape false mz ez lz) as [H|[(m' & e' & H)|[H|H]]];
    rewrite H; reflexivity.
Qed.

Lemma SFopp_positive (x : spec_float) : SFpositive x -> SFnegative (SFopp x).
Proof. intros [(m & e & ->)| ->]; [left; cbn; eauto|now right]. Qed.

Lemma SFabs_positive (x : spec_float) : SFpositive x -> SFabs x = x.
Proof. intros [(m & e & ->)| ->]; reflexivity. Qed.

Lemma SFabs_opp (x : spec_float) : SFabs (SFopp x) = SFabs x.
Proof. destruct x; reflexivity. Qed.

Lemma SFadd_positive (x y : spec_float) :
  valid_binary x = true -> valid_binary y = true ->
  SFpositive x -> SFpositive y -> SFpositive (SF64add x y).
Proof.
  intros Hx Hy [(mx & ex & ->)| ->] [(my & ey & ->)| ->];
    try (right; reflexivity).
  cbn [valid_binary] in Hx, Hy. apply Binary64Facts.bounded_inv in Hx, Hy.
  unfold SF64add. cbn [SFadd cond_Zopp].
  change (IntDef.Z.min ex ey) with (Z.min ex ey).
  cbn [Z.add binary_normalize].
  apply (Binary64Facts.binary_round_abs_positive false). lia.
Qed.

Lemma SFopp_binary_round (pm : positive) (e : Z) :
  SFopp (binary_round prec emax false pm e) = binary_round prec emax true pm e.
Proof.
  unfold binary_round. destruct (shl_align pm e _) as [mz ez].
  unfold binary_round_aux.
  destruct (shr_fexp prec emax (Zpos mz) ez loc_Exact) as [mrs1 e1].
  destruct (shr_fexp prec emax _ e1 loc_Exact) as [mrs2 e2].
  destruct (shr_m mrs2); [reflexivity| |reflexivity].
  destruct (e2 <=? emax - prec)%Z; reflexivity.
Qed.

Lemma SFadd_opp (x y : spec_float) :
  SFpositive x -> SFpositive y ->
  SF64add (SFopp x) (SFopp y) = SFopp (SF64add x y).
Proof.
  intros [(mx & ex & ->)| ->] [(my & ey & ->)| ->]; try reflexivity.
  unfold SF64add. cbn [SFopp SFadd cond_Zopp negb].
  cbn [Z.add Z.opp binary_normalize].
  symmetry. apply SFopp_binary_round.
Qed.

Lemma SFsub_add_opp (x y : spec_float) : SF64sub x y = SF64add x (SFopp y).
Proof.
  destruct x as [[]|[]| |sx mx ex], y as [[]|[]| |sy my ey]; try reflexivity.
  unfold SF64sub, SF64add. cbn [SFsub SFadd SFopp].
  f_equal. destruct sy; cbn [cond_Zopp negb]; lia.
Qed.

End Binary64Sums.

#[export] Instance binary64_signs : Float64Signs float.
Proof.
  split; cbn [feq fadd fdiv fneg fabs flt f0 binary64].
  - reflexivity.
  - intros x. rewrite eqb_spec, Prim2SF_zero. intros Hx.
    apply Prim2SF_inj. rewrite add_spec, Prim2SF_zero.
    now apply Binary64Sums.SFadd_zero_l.
  - intros x y. rewrite !ltb_zero_positive. intros Hx Hy.
    apply Prim2SF_inj. rewrite add_spec, div_spec, Prim2SF_zero.
    now apply Binary64Sums.SFadd_zero_div.
  - intros x. rewrite ltb_zero_positive, ltb_negative_zero, opp_spec.
    apply Binary64Sums.SFopp_positive.
  - intros x. rewrite ltb_zero_positive. intros Hx.
    apply Prim2SF_inj. rewrite abs_spec. now apply Binary64Sums.SFabs_positive.
  - intros x. apply Prim2SF_inj. rewrite !abs_spec, opp_spec.
    apply Binary64Sums.SFabs_opp.
  - intros x y. rewrite !ltb_zero_positive, add_spec.
    apply Binary64Sums.SFadd_positive; apply Prim2SF_valid.
  - intros x y. rewrite !ltb_zero_positive. intros Hx Hy.
    apply Prim2SF_inj. rewrite opp_spec, !add_spec, !opp_spec.
    now apply Binary64Sums.SFadd_opp.
Qed.

#[export] Instance binary64_truncation : Float64Truncation float.
Proof.
  split; cbn [fint fsub fadd fneg f0 binary64].
  - reflexivity.
  - intros x y. apply Prim2SF_inj. rewrite sub_spec, add_spec, opp_spec.
    apply Binary64Sums.SFsub_add_opp.
Qed.

Section AveragePrice.
Context {F : Type} `{!Float64 F} `{!Models F} `{!Float64Laws F} `{!Float64Signs F}.
Local Open Scope f64_scope.
Implicit Types (b : DiribitSimBroker F) (symbol k : string) (p : Position.t F).









End AveragePrice.

Section AveragePriceSamples.
Local Existing Instance sampleModels.
Local Open Scope float_scope.


(** Rounding alone moves the stored price: a first buy of 10 at 29 stores
    an average price below 29, and a second buy of 10 at 29 leaves it
    there. *)
Example two_buys_at_29 :
  exists b1 b2 p1 p2,
    updatePosition "BTC-PERPETUAL" 10 29 broker0 = Returns tt b1 /\
    positions b1 !! "BTC-PERPETUAL" = Some p1 /\
    (Position.AvgPrice p1 <? 29) = true /\
    updatePosition "BTC-PERPETUAL" 10 29 b1 = Returns tt b2 /\
    positions b2 !! "BTC-PERPETUAL" = Some p2 /\
    (Position.AvgPrice p2 <? 29) = true.
Proof. do 4 eexists. repeat split; vm_compute; reflexivity. Qed.

End AveragePriceSamples.

(** * More of the broker *)

(** ** What a call can change *)

Section Shapes.
Context {F : Type} `{!Float64 F} `{!Models F}.
Local Open Scope f64_scope.
Implicit Types (b : DiribitSimBroker F) (symbol k : string) (p : Position.t F).

Lemma set_balance_same b : set_balance (balance b) b = b.
Proof. now destruct b. Qed.

Lemma broker_same b k p :
  positions b !! k = Some p ->
  set_positions (<[k := p]> (positions b)) (set_balance (balance b) b) = b.
Proof.
  intros Hp. rewrite (insert_id _ _ _ Hp). now destruct b.
Qed.

Lemma getPosition_shape b symbol :
  getPosition symbol b =
    Returns (Some symbol)
      (set_positions (<[symbol := positionOf b symbol]> (positions b)) b).
Proof.
  unfold getPosition, positionOf.
  destruct (positions b !! symbol) as [p|] eqn:Hp; cbn [default]; [|reflexivity].
  rewrite (insert_id _ _ _ Hp). now destruct b.
Qed.

Lemma closePosition_shape b k p size price :
  positions b !! k = Some p ->
  exists e balance' p',
    closePosition (Some k) size price b =
      Returns e (set_positions (<[k := p']> (positions b)) (set_balance balance' b)) /\
    sameRecord p p'.
Proof.
  intros Hp. unfold closePosition. unfold_M. run_with Hp;
    try (do 3 eexists; split; [reflexivity|]; repeat split; fail);
    (eexists _, (balance b), p; split; [now rewrite (broker_same _ _ _ Hp)|repeat split]).
Qed.

Lemma addPosition_shape b k p size price :
  positions b !! k = Some p ->
  exists e p',
    addPosition (Some k) size price b =
      Returns e (set_positions (<[k := p']> (positions b)) (set_balance (balance b) b)) /\
    sameRecord p p'.
Proof.
  intros Hp. unfold addPosition. unfold_M. run_with Hp.
  - eexists _, p. split; [now rewrite (broker_same _ _ _ Hp)|repeat split].
  - do 2 eexists. split; [rewrite set_balance_same; reflexivity|]. repeat split.
  - do 2 eexists. split; [rewrite set_balance_same; reflexivity|]. repeat split.
Qed.

(** [updatePosition] returns, and changes nothing but the balance and the
    position of [symbol], whose record keeps its identity. *)
Lemma updatePosition_shape b symbol size price :
  exists balance' p',
    updatePosition symbol size price b =
      Returns tt (set_positions (<[symbol := p']> (positions b)) (set_balance balance' b)) /\
    sameRecord (positionOf b symbol) p'.
Proof.
  unfold updatePosition. unfold mbind at 1. unfold M_bind at 1.
  rewrite getPosition_shape.
  set (b1 := set_positions _ b).
  assert (Hp : positions b1 !! symbol = Some (positionOf b symbol))
    by (cbn; apply lookup_insert_eq).
  unfold mbind at 1. unfold M_bind at 1. unfold load. rewrite Hp.
  destruct (_ || _); unfold mbind, M_bind, mret, M_ret.
  - destruct (closePosition_shape b1 symbol _ size price Hp) as (e & bal & p' & -> & Hrec).
    exists bal, p'. split; [|exact Hrec].
    subst b1. cbn. now rewrite insert_insert_eq.
  - destruct (addPosition_shape b1 symbol _ size price Hp) as (e & p' & -> & Hrec).
    exists (balance b), p'. split; [|exact Hrec].
    subst b1. cbn. now rewrite insert_insert_eq.
Qed.
End Shapes.

(** ** Placing an order *)

Section Placing.
Context {F : Type} `{!Float64 F} `{!Models F}.
Local Open Scope f64_scope.
Implicit Types (b : DiribitSimBroker F) (symbol k : string) (id : N).

(** [matchMarketOrder] on a new order, test by test. *)
Lemma matchMarketOrder_tests b id symbol direction orderType price amount postOnly reduceOnly :
  let order := newOrder id symbol direction orderType price amount postOnly reduceOnly in
  let b1 := set_positions (<[symbol := positionOf b symbol]> (positions b)) b in
  matchMarketOrder order b =
    if negb (sizeTest amount) then Returns (Some ErrInvalidSize) b
    else if negb (limitTest b symbol amount) then Returns (Some ErrPositionLimit) b1
    else if negb (marginTest b direction amount)
         then Returns (Some (ErrMaxAmount (maxAmountOf b direction))) b1
    else (updatePosition symbol (signedSize direction amount)
            (executionPrice direction (data b));; mret None)
           (set_balance (balance b + - takerFee b direction amount) b1).
Proof.
  intros order b1. unfold matchMarketOrder, sizeTest, limitTest, marginTest, maxAmountOf, takerFee.
  cbn [order newOrder Order.IsOpen Order.Status Order.Amount Order.Symbol Order.Direction negb].
  destruct (negb (Z.rem (fint amount) 10 =? 0)%Z); [reflexivity|].
  unfold mbind at 1. unfold M_bind at 1. rewrite getPosition_shape. fold b1.
  assert (Hp : positions b1 !! symbol = Some (positionOf b symbol))
    by (cbn; apply lookup_insert_eq).
  unfold mbind at 1. unfold M_bind at 1. unfold load. rewrite Hp.
  rewrite negb_involutive.
  destruct (_ || _); [reflexivity|].
  destruct direction; cbn [executionPrice signedSize]; unfold_M; cbn [data balance b1 set_positions];
    rewrite negb_involutive; destruct (flt _ _); reflexivity.
Qed.

(** X1.  A market order is validated against the broker as it is before the
    call, in a fixed order: contract size, position limit, margin cap.  The
    first test that fails gives the error; the order is accepted exactly
    when all three pass.  In every case [PlaceOrder] returns (it never ends
    the process) and its result is the zero [Order]. *)
Theorem market_order_verdict b id symbol direction price amount postOnly reduceOnly :
  exists b',
    PlaceOrder id symbol direction OrderTypeMarket price amount postOnly reduceOnly b =
      Returns (zeroOrder,
               if negb (sizeTest amount) then Some ErrInvalidSize
               else if negb (limitTest b symbol amount) then Some ErrPositionLimit
               else if negb (marginTest b direction amount)
                    then Some (ErrMaxAmount (maxAmountOf b direction))
               else None) b'.
Proof.
  unfold PlaceOrder. unfold mbind at 1. unfold M_bind at 1.
  cbn [matchOrder Order.Type_].
  pose proof (matchMarketOrder_tests b id symbol direction OrderTypeMarket price amount
                postOnly reduceOnly) as Hm. cbv zeta in Hm. unfold newOrder in Hm.
  rewrite Hm. clear Hm.
  destruct (negb (sizeTest amount)); [eexists; reflexivity|].
  destruct (negb (limitTest b symbol amount)); [eexists; reflexivity|].
  destruct (negb (marginTest b direction amount)); [eexists; reflexivity|].
  unfold mbind at 1. unfold M_bind at 1.
  match goal with
  | |- context [updatePosition ?s ?z ?q ?b0] =>
      destruct (updatePosition_shape b0 s z q) as (bal & p' & -> & _)
  end.
  cbn [Order.IsOpen Order.Status]. unfold_M. eexists. reflexivity.
Qed.

(** X2.  A limit order is always rejected as unsupported, whether or not its
    price crosses the quote, and the broker stays exactly as it was. *)
Theorem limit_orders_are_rejected b id symbol direction price amount postOnly reduceOnly :
  PlaceOrder id symbol direction OrderTypeLimit price amount postOnly reduceOnly b =
    Returns (zeroOrder, Some ErrLimitOrder) b.
Proof. reflexivity. Qed.

(** What an accepted order leaves behind. *)
Lemma PlaceOrder_accepted b id symbol direction orderType price amount postOnly reduceOnly
    result b' :
  PlaceOrder id symbol direction orderType price amount postOnly reduceOnly b
    = Returns (result, None) b' ->
  let order := newOrder id symbol direction orderType price amount postOnly reduceOnly in
  orderType = OrderTypeMarket /\
  sizeTest amount && limitTest b symbol amount && marginTest b direction amount = true /\
  exists balance' p',
    b' = set_orders (<[id := order]> (orders b))
           (set_openOrders (<[id := order]> (openOrders b))
              (set_positions (<[symbol := p']> (positions b)) (set_balance balance' b))) /\
    sameRecord (positionOf b symbol) p'.
Proof.
  destruct orderType; [|discriminate].
  intros Hplace order. split; [reflexivity|].
  unfold PlaceOrder in Hplace. unfold mbind at 1 in Hplace. unfold M_bind at 1 in Hplace.
  cbn [matchOrder Order.Type_] in Hplace.
  pose proof (matchMarketOrder_tests b id symbol direction OrderTypeMarket price amount
                postOnly reduceOnly) as Hm. cbv zeta in Hm. unfold newOrder in Hm.
  rewrite Hm in Hplace. clear Hm.
  destruct (sizeTest amount); cbn [negb] in Hplace; [|unfold_M; discriminate Hplace].
  destruct (limitTest b symbol amount); cbn [negb] in Hplace; [|unfold_M; discriminate Hplace].
  destruct (marginTest b direction amount); cbn [negb] in Hplace;
    [|unfold_M; discriminate Hplace].
  split; [reflexivity|].
  unfold mbind at 1 in Hplace. unfold M_bind at 1 in Hplace.
  match type of Hplace with
  | context [updatePosition ?s ?z ?q ?b0] =>
      destruct (updatePosition_shape b0 s z q) as (bal & p' & Hu & Hrec);
      rewrite Hu in Hplace
  end.
  cbn [Order.IsOpen Order.Status] in Hplace. unfold_M.
  injection Hplace as _ <-.
  exists bal, p'. split.
  - cbn. now rewrite insert_insert_eq.
  - unfold positionOf at 1 in Hrec. cbn [positions set_balance set_positions] in Hrec.
    now rewrite lookup_insert_eq in Hrec.
Qed.

(** What a rejected order leaves behind. *)
Lemma PlaceOrder_rejected b id symbol direction orderType price amount postOnly reduceOnly
    result e b' :
  PlaceOrder id symbol direction orderType price amount postOnly reduceOnly b
    = Returns (result, Some e) b' ->
  b' = b \/
  (positions b !! symbol = None /\ e <> ErrInvalidSize /\
   b' = set_positions (<[symbol := freshPosition symbol]> (positions b)) b).
Proof.
  destruct orderType; [|intros [= _ _ ->]; now left].
  unfold PlaceOrder. unfold mbind at 1. unfold M_bind at 1.
  cbn [matchOrder Order.Type_].
  pose proof (matchMarketOrder_tests b id symbol direction OrderTypeMarket price amount
                postOnly reduceOnly) as Hm. cbv zeta in Hm. unfold newOrder in Hm.
  rewrite Hm. clear Hm.
  assert (Hb1 : forall e0, e0 <> ErrInvalidSize ->
            Returns (zeroOrder, Some e0)
              (set_positions (<[symbol := positionOf b symbol]> (positions b)) b)
            = Returns (result, Some e) b' ->
            b' = b \/
            (positions b !! symbol = None /\ e <> ErrInvalidSize /\
             b' = set_positions (<[symbol := freshPosition symbol]> (positions b)) b)).
  { intros e0 He0 [= _ <- <-]. unfold positionOf.
    destruct (positions b !! symbol) as [p|] eqn:Hp; cbn [default].
    - left. rewrite (insert_id _ _ _ Hp). now destruct b.
    - right. repeat split; trivial. }
  destruct (negb (sizeTest amount)); [unfold_M; intros [= _ _ ->]; now left|].
  destruct (negb (limitTest b symbol amount)); [unfold_M; now apply Hb1|].
  destruct (negb (marginTest b direction amount)); [unfold_M; now apply Hb1|].
  unfold mbind at 1. unfold M_bind at 1.
  match goal with
  | |- context [updatePosition ?s ?z ?q ?b0] =>
      destruct (updatePosition_shape b0 s z q) as (bal & p' & -> & _)
  end.
  cbn [Order.IsOpen Order.Status]. unfold_M. discriminate.
Qed.
End Placing.

Section PlacingFacts.
Context {F : Type} `{!Float64 F} `{!Models F}.
Local Open Scope f64_scope.
Implicit Types (b : DiribitSimBroker F) (symbol k : string) (id : N).

(** X3.  An accepted order is filed under its identity in [orders] and in
    [openOrders], never in [historyOrders], and as [PlaceOrder] built it:
    status new, filled amount 0, average price 0.  The fill is not written
    to the order.  [GetOrder] finds it afterwards, and the orders filed
    under other identities are as before. *)
Theorem PlaceOrder_accepted_is_on_file b id symbol direction orderType price amount
    postOnly reduceOnly result b' :
  PlaceOrder id symbol direction orderType price amount postOnly reduceOnly b
    = Returns (result, None) b' ->
  let order := newOrder id symbol direction orderType price amount postOnly reduceOnly in
  orders b' !! id = Some order /\
  openOrders b' !! id = Some order /\
  historyOrders b' = historyOrders b /\
  (forall symbol', GetOrder symbol' id b' = Returns (order, None) b') /\
  Order.Status order = OrderStatusNew /\
  Order.FilledAmount order = f0 /\ Order.AvgPrice order = f0 /\
  (forall id', id' <> id ->
     orders b' !! id' = orders b !! id' /\ openOrders b' !! id' = openOrders b !! id').
Proof.
  intros Hplace order.
  destruct (PlaceOrder_accepted _ _ _ _ _ _ _ _ _ _ _ Hplace)
    as (_ & _ & bal & p' & -> & _).
  fold order. cbn [orders openOrders historyOrders set_orders set_openOrders
                   set_positions set_balance].
  rewrite !lookup_insert_eq. repeat split.
  - intros symbol'. unfold GetOrder. unfold_M. cbn [orders set_orders].
    now rewrite lookup_insert_eq.
  - now rewrite lookup_insert_ne.
  - now rewrite lookup_insert_ne.
Qed.

(** X4.  A rejected order changes nothing, with one exception: when the
    rejection comes after the size test (position limit, margin cap) and the
    symbol had no position, a fresh flat position stays behind. *)
Theorem PlaceOrder_rejected_state b id symbol direction orderType price amount
    postOnly reduceOnly result e b' :
  PlaceOrder id symbol direction orderType price amount postOnly reduceOnly b
    = Returns (result, Some e) b' ->
  b' = b \/
  (positions b !! symbol = None /\ e <> ErrInvalidSize /\
   b' = set_positions (<[symbol := freshPosition symbol]> (positions b)) b).
Proof. apply PlaceOrder_rejected. Qed.

(** X5.  Whatever its outcome, [PlaceOrder] leaves the quote and the fee
    rates alone, touches no position but the one of its symbol, removes no
    position, and touches no order but the one of its identity. *)
Theorem PlaceOrder_frame b id symbol direction orderType price amount
    postOnly reduceOnly result e b' :
  PlaceOrder id symbol direction orderType price amount postOnly reduceOnly b
    = Returns (result, e) b' ->
  data b' = data b /\ makerFeeRate b' = makerFeeRate b /\ takerFeeRate b' = takerFeeRate b /\
  (forall k, k <> symbol -> positions b' !! k = positions b !! k) /\
  (forall k, is_Some (positions b !! k) -> is_Some (positions b' !! k)) /\
  (forall id', id' <> id -> orders b' !! id' = orders b !! id') /\
  historyOrders b' = historyOrders b.
Proof.
  intros Hplace. destruct e as [e|].
  - destruct (PlaceOrder_rejected _ _ _ _ _ _ _ _ _ _ _ _ Hplace) as [->|(Hn & _ & ->)];
      [repeat split; trivial|].
    cbn [data makerFeeRate takerFeeRate positions orders historyOrders set_positions].
    repeat split; trivial.
    + intros k Hk. now rewrite lookup_insert_ne.
    + intros k Hk. destruct (decide (symbol = k)) as [->|Hne].
      * rewrite lookup_insert_eq. eauto.
      * now rewrite lookup_insert_ne.
  - destruct (PlaceOrder_accepted _ _ _ _ _ _ _ _ _ _ _ Hplace)
      as (_ & _ & bal & p' & -> & _).
    cbn [data makerFeeRate takerFeeRate positions orders historyOrders
         set_positions set_orders set_openOrders set_balance].
    repeat split; trivial.
    + intros k Hk. now rewrite lookup_insert_ne.
    + intros k Hk. destruct (decide (symbol = k)) as [->|Hne].
      * rewrite lookup_insert_eq. eauto.
      * now rewrite lookup_insert_ne.
    + intros id' Hid. now rewrite lookup_insert_ne.
Qed.
End PlacingFacts.

Section LawfulFills.
Context {F : Type} `{!Float64 F} `{!Models F} `{!Float64Laws F}.
Local Open Scope f64_scope.
Implicit Types (b : DiribitSimBroker F) (symbol k : string) (id : N).

(** The call that [updatePosition] makes never returns an error, and moves
    the position by [size], or resets it when the magnitudes cancel. *)
Lemma updatePosition_callee b symbol size price :
  let old := positionOf b symbol in
  let b1 := set_positions (<[symbol := old]> (positions b)) b in
  exists b2 p',
    (if opposite (Position.Size old) size
     then closePosition (Some symbol) size price
     else addPosition (Some symbol) size price) b1 = Returns None b2 /\
    updatePosition symbol size price b = Returns tt b2 /\
    positions b2 !! symbol = Some p' /\
    (Position.Size p' = Position.Size old + size \/
     (Position.Size p' = f0 /\ Position.AvgPrice p' = f0 /\
      opposite (Position.Size old) size = true /\
      (fabs size - fabs (Position.Size old) =? f0) = true)).
Proof.
  intros old b1.
  destruct (updatePosition_dispatch b symbol size price) as (b1' & Hg & Hp & Hu).
  rewrite getPosition_shape in Hg. injection Hg as <-. fold old b1 in Hp, Hu.
  rewrite Hu. fold old.
  destruct (opposite (Position.Size old) size) eqn:Ho; unfold mbind, M_bind, mret, M_ret.
  - destruct (fabs size - fabs (Position.Size old) >? f0) eqn:Hr;
      [|destruct (fabs size - fabs (Position.Size old) =? f0) eqn:He].
    + rewrite (closePosition_over _ _ _ _ _ Hp Ho Hr).
      do 2 eexists. split; [reflexivity|]. split; [reflexivity|].
      cbn [positions set_positions set_balance]. rewrite lookup_insert_eq.
      split; [reflexivity|]. now left.
    + rewrite (closePosition_exact _ _ _ _ _ Hp Ho Hr He).
      do 2 eexists. split; [reflexivity|]. split; [reflexivity|].
      cbn [positions set_positions set_balance]. rewrite lookup_insert_eq.
      split; [reflexivity|]. right. repeat split.
    + rewrite (closePosition_partial _ _ _ _ _ Hp Ho Hr He).
      do 2 eexists. split; [reflexivity|]. split; [reflexivity|].
      cbn [positions set_positions set_balance]. rewrite lookup_insert_eq.
      split; [reflexivity|]. now left.
  - rewrite (addPosition_same _ _ _ _ _ Hp Ho).
    do 2 eexists. split; [reflexivity|]. split; [reflexivity|].
    cbn [positions set_positions set_balance]. rewrite lookup_insert_eq.
    split; [reflexivity|]. now left.
Qed.

(** X6.  [updatePosition] drops the error of the call it makes, but there is
    never one to drop: in the branch it takes, the guards of
    [closePosition] (no position, wrong direction) and of [addPosition]
    (wrong direction) do not fire. *)
Theorem updatePosition_drops_no_error b symbol size price :
  let old := positionOf b symbol in
  let b1 := set_positions (<[symbol := old]> (positions b)) b in
  getPosition symbol b = Returns (Some symbol) b1 /\
  exists b2,
    (if opposite (Position.Size old) size
     then closePosition (Some symbol) size price
     else addPosition (Some symbol) size price) b1 = Returns None b2 /\
    updatePosition symbol size price b = Returns tt b2.
Proof.
  intros old b1. split; [apply getPosition_shape|].
  destruct (updatePosition_callee b symbol size price) as (b2 & p' & Hc & Hu & _).
  exists b2. now split.
Qed.

(** The position after an accepted order. *)
Lemma PlaceOrder_fill b id symbol direction orderType price amount
    postOnly reduceOnly result b' :
  PlaceOrder id symbol direction orderType price amount postOnly reduceOnly b
    = Returns (result, None) b' ->
  let old := positionOf b symbol in
  let size := signedSize direction amount in
  exists p',
    positions b' !! symbol = Some p' /\
    (Position.Size p' = Position.Size old + size \/
     (Position.Size p' = f0 /\ Position.AvgPrice p' = f0 /\
      opposite (Position.Size old) size = true /\
      (fabs size - fabs (Position.Size old) =? f0) = true)).
Proof.
  destruct orderType; [|discriminate].
  intros Hplace old size.
  unfold PlaceOrder in Hplace. unfold mbind at 1 in Hplace. unfold M_bind at 1 in Hplace.
  cbn [matchOrder Order.Type_] in Hplace.
  pose proof (matchMarketOrder_tests b id symbol direction OrderTypeMarket price amount
                postOnly reduceOnly) as Hm. cbv zeta in Hm. unfold newOrder in Hm.
  rewrite Hm in Hplace. clear Hm.
  destruct (negb (sizeTest amount)); [unfold_M; discriminate Hplace|].
  destruct (negb (limitTest b symbol amount)); [unfold_M; discriminate Hplace|].
  destruct (negb (marginTest b direction amount)); [unfold_M; discriminate Hplace|].
  unfold mbind at 1 in Hplace. unfold M_bind at 1 in Hplace.
  match type of Hplace with
  | context [updatePosition ?s ?z ?q ?b0] =>
      destruct (updatePosition_callee b0 s z q) as (b2 & p' & _ & Hu & Hp' & Hsize);
      rewrite Hu in Hplace;
      assert (Hold : positionOf b0 s = old)
        by (unfold positionOf at 1; cbn [positions set_balance set_positions];
            now rewrite lookup_insert_eq)
  end.
  rewrite Hold in Hsize.
  cbn [Order.IsOpen Order.Status] in Hplace. unfold_M. injection Hplace as _ <-.
  exists p'. split; [exact Hp'|exact Hsize].
Qed.

(** X7.  No partial fills: an accepted market order moves the position of
    its symbol by the whole amount, signed by the direction; the only other
    outcome is the reset to size 0 and average price 0, when the fill goes
    against the position and the magnitudes cancel. *)
Theorem market_fill_moves_position_by_amount b id symbol direction orderType price amount
    postOnly reduceOnly result b' :
  PlaceOrder id symbol direction orderType price amount postOnly reduceOnly b
    = Returns (result, None) b' ->
  let old := positionOf b symbol in
  let size := signedSize direction amount in
  exists p',
    positions b' !! symbol = Some p' /\
    (Position.Size p' = Position.Size old + size \/
     (Position.Size p' = f0 /\ Position.AvgPrice p' = f0 /\
      opposite (Position.Size old) size = true /\
      (fabs size - fabs (Position.Size old) =? f0) = true)).
Proof. exact (PlaceOrder_fill b id symbol direction orderType price amount
               postOnly reduceOnly result b'). Qed.
End LawfulFills.

(** ** Exact close *)

Lemma SFsub_abs_equal (x y : spec_float) :
  SFltb (SFabs x) (S754_infinity false) = true ->
  SFeqb (SFabs x) (SFabs y) = true ->
  SFeqb (SF64sub (SFabs x) (SFabs y)) (S754_zero false) = true.
Proof.
  unfold SFltb, SFeqb.
  destruct x as [sx|sx| |sx mx ex], y as [sy|sy| |sy my ey];
    cbn [SFabs SFcompare]; try discriminate; try reflexivity.
  intros _.
  destruct (Z.compare_spec ex ey) as [He|He|He]; try discriminate.
  destruct (Pos.compare_cont Eq mx my) eqn:Hm; try discriminate.
  intros _. apply Pos.compare_eq in Hm. subst ey my.
  unfold SF64sub. cbn [SFsub cond_Zopp]. now rewrite Z.sub_diag.
Qed.

Lemma binary64_fsub_fabs_eq (x y : float) :
  (abs x <? infinity)%float = true -> (abs x =? abs y)%float = true ->
  (abs x - abs y =? 0)%float = true.
Proof.
  rewrite ltb_spec, !eqb_spec, sub_spec, !abs_spec, Prim2SF_zero.
  change (Prim2SF infinity) with (S754_infinity false).
  apply SFsub_abs_equal.
Qed.

#[export] Instance binary64_finite : Float64Finite float := {|
  ffinite x := (abs x <? infinity)%float;
  fsub_fabs_eq := binary64_fsub_fabs_eq
|}.

Section ExactClose.
Context {F : Type} `{!Float64 F} `{!Models F} `{!Float64Laws F} `{!Float64Finite F}.
Local Open Scope f64_scope.
Implicit Types (b : DiribitSimBroker F) (k : string) (p : Position.t F).

(** X8.  Exact close.  When a finite fill goes against a position and has
    the same magnitude, [closePosition] credits the PnL of that quantity
    (entry at the average price, exit at [price]) and resets the position
    to size 0 and average price 0; the record itself stays on file. *)
Theorem closePosition_exact_close b k p size price :
  positions b !! k = Some p ->
  opposite (Position.Size p) size = true ->
  ffinite size = true ->
  (fabs size =? fabs (Position.Size p)) = true ->
  closePosition (Some k) size price b =
    Returns None
      (set_positions
         (<[k := Position.mk F (Position.Symbol p) (Position.OpenI p) (Position.OpenPrice p)
                             f0 f0]> (positions b))
         (set_balance
            (balance b + CalcPnl (Position.Side p) (fabs size)
                                 (Position.AvgPrice p) price) b)).
Proof.
  intros Hp Ho Hfin Heq.
  pose proof (fsub_fabs_eq _ _ Hfin Heq) as He.
  apply (closePosition_exact b k p size price Hp Ho); [|exact He].
  destruct (fabs size - fabs (Position.Size p) >? f0) eqn:Hr; [|reflexivity].
  apply flt_pos_nonzero in Hr. congruence.
Qed.
End ExactClose.

(** ** Queries *)

Section QueryFacts.
Context {F : Type} `{!Float64 F} `{!Models F} `{!Float64OfInt F}.
Local Open Scope f64_scope.
Implicit Types (b : DiribitSimBroker F) (symbol k : string) (id : N).

(** The summary that [GetAccountSummary] computes from a position. *)
Lemma GetAccountSummary_shape b currency :
  let old := positionOf b (currencySymbol currency) in
  let price := match Position.Side old with
               | Buy => Tick.Ask (data b)
               | Sell => Tick.Bid (data b)
               end in
  let pnl := CalcPnl (Position.Side old) (fabs (Position.Size old))
                     (Position.AvgPrice old) price in
  GetAccountSummary currency b =
    Returns (AccountSummary.mk F (balance b) pnl (balance b + pnl), None)
      (set_positions (<[currencySymbol currency := old]> (positions b)) b).
Proof.
  intros old price pnl. rewrite GetAccountSummary_symbol.
  unfold mbind at 1. unfold M_bind at 1. unfold gets at 1.
  unfold mbind at 1. unfold M_bind at 1. rewrite getPosition_shape.
  unfold_M. cbn [positions set_positions data]. rewrite lookup_insert_eq.
  reflexivity.
Qed.

(** X9.  An account query never fails.  It reports the balance as it is and
    an equity of balance plus PnL, leaves balance and orders alone, and
    changes the broker at most once: when the position of the currency's
    symbol is on file the broker stays as it was, and a second query returns
    the same summary and changes nothing. *)
Theorem GetAccountSummary_settles b currency :
  exists summary b1,
    GetAccountSummary currency b = Returns (summary, None) b1 /\
    GetAccountSummary currency b1 = Returns (summary, None) b1 /\
    AccountSummary.Balance summary = balance b /\
    AccountSummary.Equity summary
      = AccountSummary.Balance summary + AccountSummary.Pnl summary /\
    balance b1 = balance b /\ sameRegistry b b1 /\
    (is_Some (positions b !! currencySymbol currency) -> b1 = b).
Proof.
  pose proof (GetAccountSummary_shape b currency) as H1. cbv zeta in H1.
  set (old := positionOf b (currencySymbol currency)) in *.
  set (b1 := set_positions (<[currencySymbol currency := old]> (positions b)) b) in *.
  assert (Hold : positionOf b1 (currencySymbol currency) = old)
    by (unfold positionOf at 1, b1; cbn [positions set_positions];
        now rewrite lookup_insert_eq).
  pose proof (GetAccountSummary_shape b1 currency) as H2. cbv zeta in H2.
  rewrite Hold in H2.
  assert (Hb1 : set_positions (<[currencySymbol currency := old]> (positions b1)) b1 = b1).
  { unfold b1. cbn [positions set_positions]. now rewrite insert_insert_eq. }
  rewrite Hb1 in H2.
  do 2 eexists. split; [exact H1|]. split; [exact H2|].
  repeat split.
  intros [p Hp]. unfold b1, old, positionOf. rewrite Hp. cbn [default].
  rewrite (insert_id _ _ _ Hp). now destruct b.
Qed.

(** The loop of [GetOpenOrders] keeps, in the order of the visit, the orders
    of the symbol. *)
Lemma GetOpenOrders_filter (visit : list (N * Order.t F)) symbol b :
  GetOpenOrders visit symbol b =
    Returns (filter (fun o => Order.Symbol o = symbol) (snd <$> visit), None) b.
Proof.
  unfold GetOpenOrders. unfold mret, M_ret. do 2 f_equal.
  assert (Hgen : forall acc,
             foldl (fun result kv =>
                      if String.eqb (Order.Symbol (snd kv)) symbol
                      then result ++ [snd kv] else result) acc visit
             = acc ++ filter (fun o => Order.Symbol o = symbol) (snd <$> visit)).
  { induction visit as [|[i o] visit IH]; intros acc; cbn [foldl fmap list_fmap snd].
    - now rewrite app_nil_r.
    - rewrite IH, filter_cons. cbn [snd].
      destruct (String.eqb_spec (Order.Symbol o) symbol) as [He|Hne].
      + rewrite decide_True by exact He. now rewrite <- app_assoc.
      + now rewrite decide_False by exact Hne. }
  apply (Hgen []).
Qed.

(** X10.  [GetOpenOrders] returns, whatever the order in which Go walks the
    map, exactly the orders of [openOrders] with the symbol asked for, each
    as often as it is on file; it never fails and changes nothing. *)
Theorem GetOpenOrders_lists_symbol (visit : list (N * Order.t F)) symbol b :
  visit ≡ₚ map_to_list (openOrders b) ->
  exists result,
    GetOpenOrders visit symbol b = Returns (result, None) b /\
    result ≡ₚ filter (fun o => Order.Symbol o = symbol)
                     (snd <$> map_to_list (openOrders b)) /\
    forall o, o ∈ result <->
              exists id, openOrders b !! id = Some o /\ Order.Symbol o = symbol.
Proof.
  intros Hv. rewrite GetOpenOrders_filter. eexists.
  split; [reflexivity|]. split; [now rewrite Hv|].
  intros o. rewrite list_elem_of_filter, list_elem_of_fmap. split.
  - intros (Hs & [id o'] & -> & Hin). rewrite Hv in Hin.
    apply elem_of_map_to_list in Hin. eauto.
  - intros (id & Hin & Hs). split; [exact Hs|].
    exists (id, o). split; [reflexivity|].
    rewrite Hv. now apply elem_of_map_to_list.
Qed.

(** [GetOrderBook] returns one level a side, read off the quote, and leaves
    the broker as it is. *)
Lemma GetOrderBook_shape b symbol depth :
  GetOrderBook symbol depth b =
    Returns (OrderBook.mk F (Tick.Timestamp (data b))
               [Item.mk F (Tick.Ask (data b)) (fofint (Tick.AskVolume (data b)))]
               [Item.mk F (Tick.Bid (data b)) (fofint (Tick.BidVolume (data b)))],
             None) b.
Proof. reflexivity. Qed.
End QueryFacts.

(** ** Sequences of calls *)

Section Traces.
Context {F : Type} `{!Float64 F} `{!Models F} `{!Float64OfInt F}.
Local Open Scope f64_scope.
Implicit Types (b : DiribitSimBroker F) (symbol k : string) (id : N).

(** A call leaves the broker as it was, or files a fresh flat position, or
    accepts a market order. *)
Lemma step_cases b b' :
  step b b' ->
  b' = b \/
  (exists symbol,
      positions b !! symbol = None /\
      b' = set_positions (<[symbol := freshPosition symbol]> (positions b)) b) \/
  (exists id symbol direction price amount postOnly reduceOnly balance' p',
      b' = set_orders
             (<[id := newOrder id symbol direction OrderTypeMarket price amount
                               postOnly reduceOnly]> (orders b))
             (set_openOrders
                (<[id := newOrder id symbol direction OrderTypeMarket price amount
                                  postOnly reduceOnly]> (openOrders b))
                (set_positions (<[symbol := p']> (positions b)) (set_balance balance' b))) /\
      sameRecord (positionOf b symbol) p').
Proof.
  intros Hstep.
  destruct Hstep as [id symbol direction orderType price amount postOnly reduceOnly
                        [result [e|]] b b' Hcall
                    |currency r b b' Hcall
                    |symbol depth r b b' Hcall
                    |visit symbol r b b' _ Hcall
                    |symbol id r b b' Hcall
                    |symbol r b b' Hcall].
  - destruct (PlaceOrder_rejected _ _ _ _ _ _ _ _ _ _ _ _ Hcall) as [->|(Hn & _ & ->)];
      [now left|right; left; eauto].
  - destruct (PlaceOrder_accepted _ _ _ _ _ _ _ _ _ _ _ Hcall)
      as (-> & _ & bal & p' & -> & Hrec).
    right. right. exists id, symbol, direction, price, amount, postOnly, reduceOnly, bal, p'.
    now split.
  - pose proof (GetAccountSummary_shape b currency) as Hs. cbv zeta in Hs.
    rewrite Hs in Hcall. injection Hcall as _ <-.
    unfold positionOf.
    destruct (positions b !! currencySymbol currency) as [p|] eqn:Hp; cbn [default].
    + left. rewrite (insert_id _ _ _ Hp). now destruct b.
    + right. left. eauto.
  - rewrite GetOrderBook_shape in Hcall. injection Hcall as _ <-. now left.
  - rewrite GetOpenOrders_filter in Hcall. injection Hcall as _ <-. now left.
  - unfold GetOrder in Hcall. unfold_M.
    destruct (orders b !! id); injection Hcall as _ <-; now left.
  - unfold GetPosition in Hcall. unfold_M.
    destruct (positions b !! symbol); injection Hcall as _ <-; now left.
Qed.

Lemma registryInv_step b b' : registryInv b -> step b b' -> registryInv b'.
Proof.
  intros (Hh & Ho & Hall) Hstep.
  destruct (step_cases b b' Hstep)
    as [->|[(symbol & _ & ->)|(id & symbol & direction & price & amount & postOnly
                                & reduceOnly & bal & p' & Hb' & _)]];
    [exact (conj Hh (conj Ho Hall))|exact (conj Hh (conj Ho Hall))|].
  subst b'.
  unfold registryInv.
  cbn [orders openOrders historyOrders set_orders set_openOrders set_positions set_balance].
  split; [exact Hh|]. split; [now rewrite Ho|].
  intros id' o. destruct (decide (id = id')) as [->|Hne].
  - rewrite lookup_insert_eq. intros [= <-]. repeat split.
  - rewrite lookup_insert_ne by exact Hne. apply Hall.
Qed.

Lemma ledgerInv_step b b' : ledgerInv b -> step b b' -> ledgerInv b'.
Proof.
  intros Hall Hstep.
  destruct (step_cases b b' Hstep)
    as [->|[(symbol & _ & ->)|(id & symbol & direction & price & amount & postOnly
                                & reduceOnly & bal & p' & Hb' & Hrec)]];
    [exact Hall| |].
  - intros k p. cbn [positions set_positions].
    destruct (decide (symbol = k)) as [->|Hne].
    + rewrite lookup_insert_eq. intros [= <-]. repeat split.
    + rewrite lookup_insert_ne by exact Hne. apply Hall.
  - subst b'. intros k p.
    cbn [positions set_orders set_openOrders set_positions set_balance].
    destruct (decide (symbol = k)) as [->|Hne].
    + rewrite lookup_insert_eq. intros [= <-].
      destruct Hrec as (Hs & Ht & Hp). rewrite Hs, Ht, Hp.
      unfold positionOf. destruct (positions b !! k) as [p|] eqn:Hk; cbn [default].
      * exact (Hall k p Hk).
      * repeat split.
    + rewrite lookup_insert_ne by exact Hne. apply Hall.
Qed.

Lemma frame_step b b' :
  step b b' ->
  data b' = data b /\ makerFeeRate b' = makerFeeRate b /\ takerFeeRate b' = takerFeeRate b /\
  (forall k, is_Some (positions b !! k) -> is_Some (positions b' !! k)) /\
  (forall id, is_Some (orders b !! id) -> is_Some (orders b' !! id)).
Proof.
  intros Hstep.
  destruct (step_cases b b' Hstep)
    as [->|[(symbol & _ & ->)|(id & symbol & direction & price & amount & postOnly
                                & reduceOnly & bal & p' & Hb' & _)]];
    [repeat split; trivial| |].
  - cbn [data makerFeeRate takerFeeRate positions orders set_positions].
    repeat split; trivial. intros k Hk.
    destruct (decide (symbol = k)) as [->|Hne];
      [rewrite lookup_insert_eq; eauto|now rewrite lookup_insert_ne].
  - subst b'.
    cbn [data makerFeeRate takerFeeRate positions orders
         set_orders set_openOrders set_positions set_balance].
    repeat split; trivial.
    + intros k Hk. destruct (decide (symbol = k)) as [->|Hne];
        [rewrite lookup_insert_eq; eauto|now rewrite lookup_insert_ne].
    + intros id' Hk. destruct (decide (id = id')) as [->|Hne];
        [rewrite lookup_insert_eq; eauto|now rewrite lookup_insert_ne].
Qed.

Lemma reaches_invariant (P : DiribitSimBroker F -> Prop) b0 :
  P b0 -> (forall b b', P b -> step b b' -> P b') -> forall b, reaches b0 b -> P b.
Proof.
  intros H0 Hs b Hr.
  apply (rtc_ind_r (R := step) P b0); [exact H0| |exact Hr].
  intros b1 b2 _ Hstep IH. exact (Hs b1 b2 IH Hstep).
Qed.

Lemma registryInv_NewBroker (d : Tick.t F) (cash makerFee takerFee : F) :
  registryInv (NewBroker d cash makerFee takerFee).
Proof.
  split; [reflexivity|]. split; [reflexivity|].
  intros i o Hl. unfold NewBroker in Hl. cbn [orders] in Hl.
  rewrite lookup_empty in Hl. discriminate Hl.
Qed.

(** X11.  In a broker that [NewBroker] made, after any sequence of calls:
    [historyOrders] is empty and [openOrders] holds the same orders as
    [orders]; every order on file is a market order with status new, filled
    amount 0 and average price 0, filed under its own identity.  No order
    ever reaches a terminal status. *)
Theorem registry_invariant (d : Tick.t F) (cash makerFee takerFee : F) b :
  reaches (NewBroker d cash makerFee takerFee) b ->
  registryInv b.
Proof.
  apply reaches_invariant; [apply registryInv_NewBroker|apply registryInv_step].
Qed.

(** X12.  In a broker that [NewBroker] made, after any sequence of calls,
    every position is filed under its own symbol, and its opening time and
    opening price are still unset. *)
Theorem ledger_invariant (d : Tick.t F) (cash makerFee takerFee : F) b :
  reaches (NewBroker d cash makerFee takerFee) b ->
  ledgerInv b.
Proof.
  apply reaches_invariant; [|apply ledgerInv_step].
  intros k p. unfold NewBroker. cbn [positions]. rewrite lookup_empty. discriminate.
Qed.

Lemma frame_reaches b b' :
  reaches b b' ->
  data b' = data b /\ makerFeeRate b' = makerFeeRate b /\ takerFeeRate b' = takerFeeRate b /\
  (forall k, is_Some (positions b !! k) -> is_Some (positions b' !! k)) /\
  (forall id, is_Some (orders b !! id) -> is_Some (orders b' !! id)).
Proof.
  revert b'. apply reaches_invariant; [repeat split; trivial|].
  intros b1 b2 (Hd & Hm & Ht & Hp & Ho) Hs.
  destruct (frame_step b1 b2 Hs) as (Hd' & Hm' & Ht' & Hp' & Ho').
  repeat split; try congruence; eauto.
Qed.

(** X13.  No sequence of calls removes a position or an order: what is on
    file stays on file (an order may be replaced by one with the same
    identity, a position is updated in place).  The fee rates never change. *)
Theorem nothing_is_removed b b' :
  reaches b b' ->
  makerFeeRate b' = makerFeeRate b /\ takerFeeRate b' = takerFeeRate b /\
  (forall k, is_Some (positions b !! k) -> is_Some (positions b' !! k)) /\
  (forall id, is_Some (orders b !! id) -> is_Some (orders b' !! id)).
Proof. intros Hr. destruct (frame_reaches b b' Hr) as (_ & H). exact H. Qed.

(** X14.  Fills do not consume the quote: after any sequence of calls
    [GetOrderBook] still returns, for every symbol and depth, the book it
    returned at the start, one ask level and one bid level with the quote's
    prices and sizes. *)
Theorem order_book_never_changes b b' symbol depth symbol' depth' :
  reaches b b' ->
  exists book,
    GetOrderBook symbol depth b = Returns (book, None) b /\
    GetOrderBook symbol' depth' b' = Returns (book, None) b' /\
    OrderBook.Asks book
      = [Item.mk F (Tick.Ask (data b)) (fofint (Tick.AskVolume (data b)))] /\
    OrderBook.Bids book
      = [Item.mk F (Tick.Bid (data b)) (fofint (Tick.BidVolume (data b)))].
Proof.
  intros Hr. destruct (frame_reaches b b' Hr) as (Hd & _).
  rewrite !GetOrderBook_shape, Hd. eexists. repeat split.
Qed.

(** X15.  In a broker that [NewBroker] made, the open orders of a symbol are
    all the orders ever accepted for it that are still on file: an order
    that was filled stays in the list. *)
Theorem open_orders_are_all_orders (d : Tick.t F) (cash makerFee takerFee : F) b
    (visit : list (N * Order.t F)) symbol :
  reaches (NewBroker d cash makerFee takerFee) b ->
  visit ≡ₚ map_to_list (openOrders b) ->
  exists result,
    GetOpenOrders visit symbol b = Returns (result, None) b /\
    forall o, o ∈ result <->
              exists id, orders b !! id = Some o /\ Order.Symbol o = symbol.
Proof.
  intros Hr Hv.
  assert (Hinv : registryInv b)
    by (revert Hr; apply reaches_invariant;
        [apply registryInv_NewBroker|apply registryInv_step]).
  destruct Hinv as (_ & Ho & _).
  rewrite GetOpenOrders_filter. eexists. split; [reflexivity|].
  intros o. rewrite list_elem_of_filter, list_elem_of_fmap, <- Ho. split.
  - intros (Hs & [id o'] & -> & Hin). rewrite Hv in Hin.
    apply elem_of_map_to_list in Hin. eauto.
  - intros (id & Hin & Hs). split; [exact Hs|].
    exists (id, o). split; [reflexivity|].
    rewrite Hv. now apply elem_of_map_to_list.
Qed.
End Traces.

(** ** The sizes of the quote *)

Section Volumes.
Context {F : Type} `{!Float64 F} `{!Models F}.
Local Open Scope f64_scope.
Implicit Types (b : DiribitSimBroker F) (symbol k : string) (id : N).

Ltac split_tests :=
  repeat match goal with
         | |- context [if ?c then _ else _] => destruct c
         end.

Lemma closePosition_setVolumes bv av b k size price :
  closePosition (Some k) size price (setVolumes bv av b)
  = mapState (setVolumes bv av) (closePosition (Some k) size price b).
Proof.
  unfold closePosition. unfold_M. cbn [positions setVolumes].
  destruct (positions b !! k); [|reflexivity].
  split_tests; reflexivity.
Qed.

Lemma addPosition_setVolumes bv av b k size price :
  addPosition (Some k) size price (setVolumes bv av b)
  = mapState (setVolumes bv av) (addPosition (Some k) size price b).
Proof.
  unfold addPosition. unfold_M. cbn [positions setVolumes].
  destruct (positions b !! k); [|reflexivity].
  split_tests; reflexivity.
Qed.

Lemma updatePosition_normal b symbol size price :
  updatePosition symbol size price b =
    (if opposite (Position.Size (positionOf b symbol)) size
     then closePosition (Some symbol) size price;; mret tt
     else addPosition (Some symbol) size price;; mret tt)
      (set_positions (<[symbol := positionOf b symbol]> (positions b)) b).
Proof.
  destruct (updatePosition_dispatch b symbol size price) as (b1 & Hg & _ & ->).
  rewrite getPosition_shape in Hg. now injection Hg as <-.
Qed.

Lemma updatePosition_setVolumes bv av b symbol size price :
  updatePosition symbol size price (setVolumes bv av b)
  = mapState (setVolumes bv av) (updatePosition symbol size price b).
Proof.
  rewrite !updatePosition_normal.
  change (positionOf (setVolumes bv av b) symbol) with (positionOf b symbol).
  set (old := positionOf b symbol).
  change (set_positions (<[symbol := old]> (positions (setVolumes bv av b)))
                        (setVolumes bv av b))
    with (setVolumes bv av (set_positions (<[symbol := old]> (positions b)) b)).
  set (b1 := set_positions _ b).
  destruct (opposite (Position.Size old) size); unfold mbind, M_bind, mret, M_ret.
  - rewrite closePosition_setVolumes.
    destruct (closePosition (Some symbol) size price b1); reflexivity.
  - rewrite addPosition_setVolumes.
    destruct (addPosition (Some symbol) size price b1); reflexivity.
Qed.

(** X16.  A market order never looks at the sizes of the quote: with other
    bid and ask sizes [PlaceOrder] gives the same result and the same
    broker, those sizes apart.  An order larger than the quoted size is
    filled in full all the same. *)
Theorem PlaceOrder_ignores_quoted_sizes bv av b id symbol direction orderType price amount
    postOnly reduceOnly :
  PlaceOrder id symbol direction orderType price amount postOnly reduceOnly
             (setVolumes bv av b)
  = mapState (setVolumes bv av)
      (PlaceOrder id symbol direction orderType price amount postOnly reduceOnly b).
Proof.
  destruct orderType; [|reflexivity].
  unfold PlaceOrder. unfold mbind at 1 4. unfold M_bind at 1 4.
  cbn [matchOrder Order.Type_].
  pose proof (matchMarketOrder_tests (setVolumes bv av b) id symbol direction OrderTypeMarket
                price amount postOnly reduceOnly) as H1.
  pose proof (matchMarketOrder_tests b id symbol direction OrderTypeMarket
                price amount postOnly reduceOnly) as H2.
  cbv zeta in H1, H2. unfold newOrder in H1, H2. rewrite H1, H2. clear H1 H2.
  assert (Hl : limitTest (setVolumes bv av b) symbol amount = limitTest b symbol amount)
    by reflexivity.
  assert (Hm : marginTest (setVolumes bv av b) direction amount
               = marginTest b direction amount) by (now destruct direction).
  assert (Hx : maxAmountOf (setVolumes bv av b) direction = maxAmountOf b direction)
    by (now destruct direction).
  assert (He : executionPrice direction (data (setVolumes bv av b))
               = executionPrice direction (data b)) by (now destruct direction).
  assert (Hf : takerFee (setVolumes bv av b) direction amount = takerFee b direction amount)
    by (unfold takerFee; now rewrite He).
  rewrite Hl, Hm, Hx, He, Hf.
  destruct (negb (sizeTest amount)); [reflexivity|].
  destruct (negb (limitTest b symbol amount)); [reflexivity|].
  destruct (negb (marginTest b direction amount)); [reflexivity|].
  change (positionOf (setVolumes bv av b) symbol) with (positionOf b symbol).
  change (positions (setVolumes bv av b)) with (positions b).
  change (balance (setVolumes bv av b)) with (balance b).
  set (b1 := set_balance _ (set_positions _ b)).
  change (set_balance (balance b + - takerFee b direction amount)
            (set_positions (<[symbol := positionOf b symbol]> (positions b))
               (setVolumes bv av b)))
    with (setVolumes bv av b1).
  unfold mbind at 1 4. unfold M_bind at 1 4.
  rewrite updatePosition_setVolumes.
  destruct (updatePosition symbol (signedSize direction amount)
              (executionPrice direction (data b)) b1) as [[] b2|msg]; reflexivity.
Qed.
End Volumes.

(** ** What the limit test bounds *)

Section TruncatedLimit.
Context {F : Type} `{!Float64 F} `{!Models F} `{!Float64Laws F} `{!Float64Truncation F}.
Local Open Scope f64_scope.
Implicit Types (b : DiribitSimBroker F) (symbol : string).

(** X20.  The position limit is tested on the truncations
    [int(size + amount)] and [int(size - amount)].  What an accepted market
    order guarantees is therefore a bound on the truncation of the new
    size, on the side the order moves the position to: at most 100000
    after a buy, at least -100000 after a sale. *)
Theorem accepted_fill_keeps_truncated_limit b id symbol direction orderType price amount
    postOnly reduceOnly result b' :
  PlaceOrder id symbol direction orderType price amount postOnly reduceOnly b
    = Returns (result, None) b' ->
  exists p',
    positions b' !! symbol = Some p' /\
    match direction with
    | Buy => (fint (Position.Size p') <= PositionSizeLimit)%Z
    | Sell => (- PositionSizeLimit <= fint (Position.Size p'))%Z
    end.
Proof.
  intros Hplace.
  destruct (PlaceOrder_accepted _ _ _ _ _ _ _ _ _ _ _ Hplace) as (_ & Htests & _).
  apply andb_true_iff in Htests as [Htests _].
  apply andb_true_iff in Htests as [_ Hlimit].
  unfold limitTest in Hlimit. apply negb_true_iff, orb_false_iff in Hlimit as [Hup Hdown].
  destruct (PlaceOrder_fill _ _ _ _ _ _ _ _ _ _ _ Hplace) as (p' & Hp' & [Hs|(Hs & _)]);
    exists p'; (split; [exact Hp'|]); rewrite Hs.
  - destruct direction; cbn [signedSize]; [|rewrite <- fsub_fneg]; lia.
  - rewrite fint_zero. unfold PositionSizeLimit. destruct direction; lia.
Qed.
End TruncatedLimit.

(** ** The position limit on whole amounts *)

Module Binary64Whole.
Local Open Scope Z_scope.

Lemma digits2_unique (m : positive) (k : Z) :
  2 ^ (k - 1) <= Zpos m < 2 ^ k -> Zpos (digits2_pos m) = k.
Proof.
  intros [Hlo Hhi]. pose proof (Binary64Facts.digits2_pos_bounds m) as [Hl Hu].
  set (d := Zpos (digits2_pos m)) in *.
  assert (Hk : 0 < k).
  { destruct (Z.lt_trichotomy k 0) as [H|[H|H]]; [|subst k; cbn in Hhi; lia|lia].
    rewrite (Z.pow_neg_r 2 k) in Hhi by lia. lia. }
  destruct (Z.lt_trichotomy d k) as [H|[H|H]]; [|exact H|].
  - assert (2 ^ d <= 2 ^ (k - 1)) by (apply Z.pow_le_mono_r; lia). lia.
  - assert (2 ^ k <= 2 ^ (d - 1)) by (apply Z.pow_le_mono_r; lia). lia.
Qed.

Lemma digits2_shift (q c : positive) (k : Z) :
  0 <= k -> Zpos q = Zpos c * 2 ^ k ->
  Zpos (digits2_pos q) = Zpos (digits2_pos c) + k.
Proof.
  intros Hk Hq. pose proof (Binary64Facts.digits2_pos_bounds c) as [Hl Hu].
  apply digits2_unique. rewrite Hq.
  replace (Zpos (digits2_pos c) + k - 1) with (Zpos (digits2_pos c) - 1 + k) by lia.
  rewrite !Z.pow_add_r by lia.
  assert (0 < 2 ^ k) by (apply Z.pow_pos_nonneg; lia). nia.
Qed.

Lemma iter_pos_iter {A} (f : A -> A) (n : positive) (x : A) :
  iter_pos f n x = Pos.iter f x n.
Proof.
  revert x. induction n as [n IH|n IH|]; intros x; cbn [iter_pos Pos.iter].
  - rewrite !IH. now rewrite <- !Pos.iter_swap.
  - now rewrite !IH.
  - reflexivity.
Qed.

(** Shifting out zeros is exact. *)
Lemma shr_exact (q' : positive) (n : positive) :
  iter_pos shr_1 n (Build_shr_record (Zpos (Pos.iter xO q' n)) false false)
  = Build_shr_record (Zpos q') false false.
Proof.
  rewrite iter_pos_iter.
  induction n as [|n IH] using Pos.peano_ind.
  - reflexivity.
  - rewrite Pos.iter_succ_r, Pos.iter_succ. cbn [shr_1 orb]. exact IH.
Qed.


Lemma shr_fexp_still (m : positive) (e : Z) (l : location) :
  Z.max (Zpos (digits2_pos m) + e - 53) (-1074) = e ->
  shr_fexp prec emax (Zpos m) e l = (shr_record_of_loc (Zpos m) l, e).
Proof.
  intros H. unfold shr_fexp. cbn [Zdigits2]. rewrite Binary64Facts.fexp64, H, Z.sub_diag.
  reflexivity.
Qed.

(** A mantissa at its canonical exponent is left as it is. *)
Lemma binary_round_aux_still (s : bool) (m : positive) (e : Z) :
  Z.max (Zpos (digits2_pos m) + e - 53) (-1074) = e -> e <= 971 ->
  binary_round_aux prec emax s (Zpos m) e loc_Exact = S754_finite s m e.
Proof.
  intros H He. unfold binary_round_aux.
  rewrite (shr_fexp_still m e loc_Exact H).
  cbn [shr_record_of_loc shr_m loc_of_shr_record shr_r shr_s round_nearest_even].
  rewrite (shr_fexp_still m e loc_Exact H).
  cbn [shr_record_of_loc shr_m].
  change (emax - prec) with 971.
  now rewrite (proj2 (Z.leb_le e 971) He).
Qed.

(** Rounding a whole number below 2^53 is exact. *)
Lemma binary_round_exact (s : bool) (q c : positive) (e : Z) :
  -1074 <= e <= 0 -> Zpos q = Zpos c * 2 ^ (- e) -> Zpos c < 2 ^ 53 ->
  exists m' e',
    binary_round prec emax s q e = S754_finite s m' e' /\
    e' <= 0 /\ Zpos m' = Zpos c * 2 ^ (- e') /\
    Z.max (Zpos (digits2_pos m') + e' - 53) (-1074) = e'.
Proof.
  intros He Hq Hc.
  pose proof (Binary64Facts.digits2_pos_bounds c) as [Hl Hu].
  set (dc := Zpos (digits2_pos c)) in *.
  assert (Hdc : 1 <= dc <= 53).
  { split; [unfold dc; lia|].
    destruct (Z.le_gt_cases dc 53) as [H|H]; [exact H|].
    assert (2 ^ 53 <= 2 ^ (dc - 1)) by (apply Z.pow_le_mono_r; lia). lia. }
  assert (Hdq : Zpos (digits2_pos q) = dc - e) by (rewrite (digits2_shift q c (- e)); lia).
  unfold binary_round. rewrite Binary64Facts.fexp64, Hdq.
  replace (dc - e + e - 53) with (dc - 53) by lia.
  replace (Z.max (dc - 53) (-1074)) with (dc - 53) by lia.
  unfold shl_align.
  destruct (dc - 53 - e) as [|p|p] eqn:Hn.
  - exists q, e. rewrite binary_round_aux_still by lia. repeat split; [lia|exact Hq|lia].
  - set (q' := Z.to_pos (Zpos c * 2 ^ (- (dc - 53)))).
    assert (Hq' : Zpos q' = Zpos c * 2 ^ (- (dc - 53))).
    { unfold q'. rewrite Z2Pos.id; [reflexivity|].
      assert (0 < 2 ^ (- (dc - 53))) by (apply Z.pow_pos_nonneg; lia). nia. }
    assert (Hshift : q = Pos.iter xO q' p).
    { apply Pos2Z.inj. rewrite Binary64Facts.iter_xO, Hq, Hq', <- Z.mul_assoc.
      rewrite <- Z.pow_add_r by lia. do 2 f_equal. lia. }
    assert (Hdq' : Zpos (digits2_pos q') = 53)
      by (rewrite (digits2_shift q' c (- (dc - 53))); fold dc; lia).
    exists q', (dc - 53).
    split; [|split; [lia|split; [exact Hq'|lia]]].
    unfold binary_round_aux, shr_fexp. cbn [Zdigits2].
    rewrite Binary64Facts.fexp64, Hdq.
    replace (dc - e + e - 53) with (dc - 53) by lia.
    replace (Z.max (dc - 53) (-1074)) with (dc - 53) by lia.
    rewrite Hn. cbn [shr shr_record_of_loc].
    rewrite Hshift, shr_exact.
    cbn [shr_m loc_of_shr_record shr_r shr_s round_nearest_even Zdigits2].
    rewrite Binary64Facts.fexp64, Hdq'.
    replace (e + Zpos p) with (dc - 53) by lia.
    replace (53 + (dc - 53) - 53) with (dc - 53) by lia.
    replace (Z.max (dc - 53) (-1074)) with (dc - 53) by lia.
    rewrite Z.sub_diag. cbn [shr shr_m].
    change (emax - prec) with 971.
    now rewrite (proj2 (Z.leb_le (dc - 53) 971)) by lia.
  - assert (Hmz : Zpos (Pos.iter xO q p) = Zpos c * 2 ^ (- (dc - 53))).
    { rewrite Binary64Facts.iter_xO, Hq, <- Z.mul_assoc, <- Z.pow_add_r by lia.
      do 2 f_equal. lia. }
    assert (Hdz : Zpos (digits2_pos (Pos.iter xO q p)) = 53)
      by (rewrite (digits2_shift _ c (- (dc - 53))) by (trivial; lia); fold dc; lia).
    exists (Pos.iter xO q p), (dc - 53).
    split; [|split; [lia|split; [exact Hmz|lia]]].
    apply binary_round_aux_still; lia.
Qed.

Lemma cond_Zopp_aligned (s : bool) (m : positive) (e ez a : Z) :
  ez <= e -> e <= 0 ->
  (if s then Zneg m else Zpos m) = a * 2 ^ (- e) ->
  cond_Zopp s (Zpos (fst (shl_align m e ez))) = a * 2 ^ (- ez).
Proof.
  intros Hez He Hm. rewrite Binary64Facts.shl_align_fst by exact Hez.
  replace (- ez) with (- e + (e - ez)) by lia.
  rewrite Z.pow_add_r, Z.mul_assoc, <- Hm by lia.
  destruct s; cbn [cond_Zopp]; lia.
Qed.

(** The sum of two whole numbers is exact while it stays below 2^53. *)
Lemma SFadd_whole (x y : spec_float) (a b : Z) :
  valid_binary x = true -> valid_binary y = true ->
  SFwhole x a -> SFwhole y b -> Z.abs (a + b) < 2 ^ 53 ->
  SFwhole (SF64add x y) (a + b).
Proof.
  intros Hx Hy Ha Hb Hc.
  destruct x as [sx|sx| |sx mx ex], y as [sy|sy| |sy my ey];
    cbn [SFwhole] in Ha, Hb; try contradiction.
  - subst a b. destruct sx, sy; reflexivity.
  - subst a. exact Hb.
  - subst b. rewrite Z.add_0_r. exact Ha.
  - destruct Ha as [Hex Ha], Hb as [Hey Hb].
    cbn [valid_binary] in Hx, Hy. apply Binary64Facts.bounded_inv in Hx, Hy.
    unfold SF64add. cbn [SFadd]. change (IntDef.Z.min ex ey) with (Z.min ex ey).
    set (ez := Z.min ex ey).
    assert (Hez : -1074 <= ez <= 0) by (unfold ez; lia).
    rewrite (cond_Zopp_aligned sx mx ex ez a), (cond_Zopp_aligned sy my ey ez b)
      by (trivial; unfold ez; lia).
    rewrite <- Z.mul_add_distr_r.
    assert (Hpow : 0 < 2 ^ (- ez)) by (apply Z.pow_pos_nonneg; lia).
    destruct ((a + b) * 2 ^ (- ez)) as [|q|q] eqn:Hs; cbn [binary_normalize].
    + assert (a + b = 0) by nia. cbn [SFwhole]. lia.
    + assert (Hpos : 0 < a + b) by nia.
      destruct (binary_round_exact false q (Z.to_pos (a + b)) ez Hez)
        as (m' & e' & -> & He' & Hm' & _);
        [rewrite Z2Pos.id by lia; lia|rewrite Z2Pos.id by lia; lia|].
      rewrite Z2Pos.id in Hm' by lia. cbn [SFwhole]. split; [exact He'|exact Hm'].
    + assert (Hneg : a + b < 0) by nia.
      destruct (binary_round_exact true q (Z.to_pos (- (a + b))) ez Hez)
        as (m' & e' & -> & He' & Hm' & _);
        [rewrite Z2Pos.id by lia; lia|rewrite Z2Pos.id by lia; lia|].
      rewrite Z2Pos.id in Hm' by lia. cbn [SFwhole]. split; [exact He'|lia].
Qed.

Lemma SFopp_whole (x : spec_float) (a : Z) : SFwhole x a -> SFwhole (SFopp x) (- a).
Proof.
  destruct x as [s|s| |s m e]; cbn [SFwhole SFopp]; try tauto; [lia|].
  intros [He Hm]. split; [exact He|]. destruct s; cbn [negb]; lia.
Qed.

(** The magnitude of a whole number is below 2^53, and its truncation is
    the number itself. *)
Lemma SFwhole_bound (x : spec_float) (a : Z) :
  valid_binary x = true -> SFwhole x a -> Z.abs a < 2 ^ 53.
Proof.
  destruct x as [s|s| |s m e]; cbn [SFwhole valid_binary]; try tauto; [intros _ ->; reflexivity|].
  intros Hv [He Hm]. apply Binary64Facts.bounded_inv in Hv.
  pose proof (Binary64Facts.digits2_pos_bounds m) as [_ Hu].
  assert (Hd : 2 ^ Zpos (digits2_pos m) <= 2 ^ 53) by (apply Z.pow_le_mono_r; lia).
  assert (Hpow : 0 < 2 ^ (- e)) by (apply Z.pow_pos_nonneg; lia).
  destruct s; nia.
Qed.

Lemma SFabs_whole (x : spec_float) (a : Z) : SFwhole x a -> SFwhole (SFabs x) (Z.abs a).
Proof.
  destruct x as [s|s| |s m e]; cbn [SFwhole SFabs]; try tauto; [lia|].
  intros [He Hm]. split; [exact He|].
  assert (Hpow : 0 < 2 ^ (- e)) by (apply Z.pow_pos_nonneg; lia).
  destruct s; nia.
Qed.

(** The comparisons with 0 read the sign of the whole number. *)
Lemma SFwhole_sign (x : spec_float) (a : Z) :
  SFwhole x a ->
  (SFeqb x (S754_zero false) = true -> a = 0) /\
  (SFltb (S754_zero false) x = true -> 0 < a) /\
  (SFltb x (S754_zero false) = true -> a < 0).
Proof.
  destruct x as [s|s| |s m e]; cbn [SFwhole]; try tauto.
  - intros ->. repeat split; trivial; destruct s; discriminate.
  - intros [He Hm].
    assert (Hpow : 0 < 2 ^ (- e)) by (apply Z.pow_pos_nonneg; lia).
    destruct s; repeat split; try discriminate; intros _; nia.
Qed.

(** The conversion of a whole number below 2^53 is that number. *)
Lemma binary_normalize_whole (n : Z) :
  Z.abs n < 2 ^ 53 ->
  valid_binary (binary_normalize prec emax n 0 false) = true /\
  SFwhole (binary_normalize prec emax n 0 false) n.
Proof.
  intros Hn. destruct n as [|p|p]; cbn [binary_normalize].
  - split; reflexivity.
  - destruct (binary_round_exact false p p 0) as (m' & e' & -> & He' & Hm' & Hcan);
      [lia|cbn; lia|lia|].
    split; [|split; [exact He'|exact Hm']].
    cbn [valid_binary]. unfold bounded, canonical_mantissa.
    rewrite Binary64Facts.fexp64, Hcan, Z.eqb_refl. cbn [andb].
    change (emax - prec) with 971. apply Z.leb_le. lia.
  - destruct (binary_round_exact true p p 0) as (m' & e' & -> & He' & Hm' & Hcan);
      [lia|cbn; lia|lia|].
    split; [|split; [exact He'|lia]].
    cbn [valid_binary]. unfold bounded, canonical_mantissa.
    rewrite Binary64Facts.fexp64, Hcan, Z.eqb_refl. cbn [andb].
    change (emax - prec) with 971. apply Z.leb_le. lia.
Qed.

End Binary64Whole.

(** [float64(n)] is the whole number [n], for [n] below 2^53 in magnitude. *)
Lemma whole_fofint (n : Z) : (Z.abs n < 2 ^ 53)%Z -> whole (fofint n) n.
Proof.
  intros Hn. destruct (Binary64Whole.binary_normalize_whole n Hn) as [Hv Hw].
  unfold whole. cbn [fofint binary64_of_int]. now rewrite Prim2SF_SF2Prim.
Qed.

Lemma whole_add (x y : float) (a b : Z) :
  whole x a -> whole y b -> (Z.abs (a + b) < 2 ^ 53)%Z -> whole (x + y)%float (a + b).
Proof.
  unfold whole. rewrite add_spec. apply Binary64Whole.SFadd_whole; apply Prim2SF_valid.
Qed.

Lemma whole_opp (x : float) (a : Z) : whole x a -> whole (- x)%float (- a).
Proof. unfold whole. rewrite opp_spec. apply Binary64Whole.SFopp_whole. Qed.

Lemma whole_sub (x y : float) (a b : Z) :
  whole x a -> whole y b -> (Z.abs (a - b) < 2 ^ 53)%Z -> whole (x - y)%float (a - b).
Proof.
  intros Ha Hb Hc. unfold whole.
  rewrite sub_spec, Binary64Sums.SFsub_add_opp, <- opp_spec, <- add_spec.
  exact (whole_add x (- y) a (- b) Ha (whole_opp y b Hb) Hc).
Qed.

Lemma whole_int (x : float) (a : Z) : whole x a -> int_of_float x = a.
Proof.
  intros Ha. pose proof (Binary64Whole.SFwhole_bound _ _ (Prim2SF_valid x) Ha) as Hb.
  unfold whole in Ha. unfold int_of_float.
  destruct (Prim2SF x) as [s|s| |s m e]; cbn [SFwhole] in Ha;
    try contradiction; [now subst a|].
  destruct Ha as [He Hm].
  assert (Hpow : (0 < 2 ^ (- e))%Z) by (apply Z.pow_pos_nonneg; lia).
  assert (Hshift : Z.shiftl (Zpos m) e = (Zpos m / 2 ^ (- e))%Z).
  { rewrite <- (Z.opp_involutive e) at 1.
    rewrite Z.shiftl_opp_r, Z.shiftr_div_pow2 by lia. reflexivity. }
  assert (Hv : (if s then - Z.shiftl (Zpos m) e else Z.shiftl (Zpos m) e)%Z = a).
  { rewrite Hshift. destruct s.
    - replace (Zpos m) with ((- a) * 2 ^ (- e))%Z by lia. rewrite Z.div_mul by lia. lia.
    - rewrite Hm, Z.div_mul by lia. reflexivity. }
  cbv zeta. rewrite Hv. unfold clampInt, minInt64, maxInt64.
  change (2 ^ 63)%Z with 9223372036854775808%Z.
  change (2 ^ 53)%Z with 9007199254740992%Z in Hb.
  destruct ((_ <=? a)%Z && _) eqn:E; [reflexivity|].
  apply andb_false_iff in E. lia.
Qed.

Lemma whole_abs (x : float) (a : Z) : whole x a -> whole (abs x) (Z.abs a).
Proof. unfold whole. rewrite abs_spec. apply Binary64Whole.SFabs_whole. Qed.

Lemma whole_sign (x : float) (a : Z) :
  whole x a ->
  ((x =? 0)%float = true -> a = 0%Z) /\
  ((0 <? x)%float = true -> (0 < a)%Z) /\
  ((x <? 0)%float = true -> (a < 0)%Z).
Proof.
  unfold whole. rewrite eqb_spec, !ltb_spec, Prim2SF_zero.
  apply Binary64Whole.SFwhole_sign.
Qed.

Section WholeAmounts.
Context `{!Models float}.
Local Open Scope float_scope.
Implicit Types (b : DiribitSimBroker float) (symbol : string).

(** An accepted order on whole numbers. *)
Lemma PlaceOrder_whole b id symbol direction orderType price amount (z n : Z)
    postOnly reduceOnly result b' :
  whole (Position.Size (positionOf b symbol)) z ->
  (- PositionSizeLimit <= z <= PositionSizeLimit)%Z ->
  whole amount n -> (0 <= n <= 2 ^ 52)%Z ->
  PlaceOrder id symbol direction orderType price amount postOnly reduceOnly b
    = Returns (result, None) b' ->
  let z' := match direction with Buy => (z + n)%Z | Sell => (z - n)%Z end in
  exists p',
    positions b' !! symbol = Some p' /\
    whole (Position.Size p') z' /\
    (- PositionSizeLimit <= z' <= PositionSizeLimit)%Z.
Proof.
  intros Hz Hrange Hn Hbound Hplace z'.
  unfold PositionSizeLimit in *.
  change (2 ^ 52)%Z with 4503599627370496%Z in Hbound.
  assert (Hadd : whole (Position.Size (positionOf b symbol) + amount) (z + n))
    by (apply whole_add; trivial; change (2 ^ 53)%Z with 9007199254740992%Z; lia).
  assert (Hsub : whole (Position.Size (positionOf b symbol) - amount) (z - n))
    by (apply whole_sub; trivial; change (2 ^ 53)%Z with 9007199254740992%Z; lia).
  destruct (PlaceOrder_accepted _ _ _ _ _ _ _ _ _ _ _ Hplace) as (_ & Htests & _).
  apply andb_true_iff in Htests as [Htests _].
  apply andb_true_iff in Htests as [_ Hlimit].
  unfold limitTest, PositionSizeLimit in Hlimit.
  apply negb_true_iff, orb_false_iff in Hlimit as [Hup Hdown].
  cbn [fint fadd fsub binary64] in Hup, Hdown.
  rewrite (whole_int _ _ Hadd) in Hup. rewrite (whole_int _ _ Hsub) in Hdown.
  assert (Hz' : (-100000 <= z' <= 100000)%Z) by (unfold z'; destruct direction; lia).
  destruct (PlaceOrder_fill _ _ _ _ _ _ _ _ _ _ _ Hplace) as (p' & Hp' & Hcases).
  exists p'. split; [exact Hp'|]. split; [|exact Hz'].
  cbn [fadd fsub fabs feq f0 binary64] in Hcases.
  destruct Hcases as [Hs|(Hs & _ & Ho & He)]; rewrite Hs.
  - unfold z'. destruct direction; cbn [signedSize fneg binary64]; [exact Hadd|].
    apply (whole_add _ _ z (- n) Hz (whole_opp _ _ Hn)).
    change (2 ^ 53)%Z with 9007199254740992%Z. lia.
  - assert (Hsize : whole (signedSize direction amount)
                      (match direction with Buy => n | Sell => - n end)%Z)
      by (destruct direction; cbn [signedSize fneg binary64]; [exact Hn|now apply whole_opp]).
    set (s := signedSize direction amount) in *.
    set (sn := match direction with Buy => n | Sell => (- n)%Z end) in *.
    assert (Hdiff : whole (abs s - abs (Position.Size (positionOf b symbol)))
                      (Z.abs sn - Z.abs z)).
    { apply whole_sub; try now apply whole_abs.
      change (2 ^ 53)%Z with 9007199254740992%Z. unfold sn. destruct direction; lia. }
    apply (whole_sign _ _ Hdiff) in He.
    unfold opposite in Ho. cbn [flt f0 binary64] in Ho.
    assert (Hzero : z' = 0%Z).
    { apply orb_true_iff in Ho as [Ho|Ho]; apply andb_true_iff in Ho as [H1 H2];
        [apply (proj1 (proj2 (whole_sign _ _ Hz))) in H1;
         apply (proj2 (proj2 (whole_sign _ _ Hsize))) in H2
        |apply (proj2 (proj2 (whole_sign _ _ Hz))) in H1;
         apply (proj1 (proj2 (whole_sign _ _ Hsize))) in H2];
        unfold z', sn in *; destruct direction; lia. }
    rewrite Hzero. reflexivity.
Qed.

(** X19.  The limit test is sound on whole numbers.  When the position is
    a whole number within the limit of 100000 and the amount is a whole
    number between 0 and 2^52, an accepted market order moves the position
    by exactly the amount, without rounding, and leaves it within the
    limit. *)
Theorem whole_amounts_keep_the_limit b id symbol direction orderType price amount (z n : Z)
    postOnly reduceOnly result b' :
  whole (Position.Size (positionOf b symbol)) z ->
  (- PositionSizeLimit <= z <= PositionSizeLimit)%Z ->
  whole amount n -> (0 <= n <= 2 ^ 52)%Z ->
  PlaceOrder id symbol direction orderType price amount postOnly reduceOnly b
    = Returns (result, None) b' ->
  let z' := match direction with Buy => (z + n)%Z | Sell => (z - n)%Z end in
  exists p',
    positions b' !! symbol = Some p' /\
    whole (Position.Size p') z' /\
    (- PositionSizeLimit <= z' <= PositionSizeLimit)%Z.
Proof.
  exact (PlaceOrder_whole b id symbol direction orderType price amount z n
           postOnly reduceOnly result b').
Qed.

Lemma whole_zero : whole 0 0.
Proof. reflexivity. Qed.

Lemma limitInv_positionOf b symbol :
  limitInv b ->
  exists z, whole (Position.Size (positionOf b symbol)) z /\
            (- PositionSizeLimit <= z <= PositionSizeLimit)%Z.
Proof.
  intros Hinv. unfold positionOf.
  destruct (positions b !! symbol) as [p|] eqn:Hp; cbn [default].
  - exact (Hinv symbol p Hp).
  - exists 0%Z. split; [exact whole_zero|]. unfold PositionSizeLimit. lia.
Qed.

Lemma limitInv_fresh b symbol :
  limitInv b ->
  limitInv (set_positions (<[symbol := freshPosition symbol]> (positions b)) b).
Proof.
  intros Hinv k p. cbn [positions set_positions].
  destruct (decide (symbol = k)) as [->|Hne].
  - rewrite lookup_insert_eq. intros [= <-].
    exists 0%Z. split; [exact whole_zero|]. unfold PositionSizeLimit. lia.
  - rewrite lookup_insert_ne by exact Hne. apply Hinv.
Qed.

Lemma limitInv_step b b' : limitInv b -> wholeStep b b' -> limitInv b'.
Proof.
  intros Hinv Hstep.
  destruct Hstep as [id symbol direction orderType price amount n postOnly reduceOnly
                        [result [e|]] b b' Hn Hbound Hcall
                    |currency r b b' Hcall
                    |symbol depth r b b' Hcall
                    |visit symbol r b b' _ Hcall
                    |symbol id r b b' Hcall
                    |symbol r b b' Hcall].
  - destruct (PlaceOrder_rejected _ _ _ _ _ _ _ _ _ _ _ _ Hcall) as [->|(_ & _ & ->)];
      [exact Hinv|now apply limitInv_fresh].
  - destruct (limitInv_positionOf b symbol Hinv) as (z & Hz & Hrange).
    destruct (PlaceOrder_whole _ _ _ _ _ _ _ z n _ _ _ _ Hz Hrange Hn Hbound Hcall)
      as (p' & Hp' & Hwhole & Hlimit).
    destruct (PlaceOrder_accepted _ _ _ _ _ _ _ _ _ _ _ Hcall)
      as (_ & _ & bal & p'' & Hb' & _).
    intros k p Hk. destruct (decide (symbol = k)) as [->|Hne].
    + rewrite Hp' in Hk. injection Hk as <-. eauto.
    + rewrite Hb' in Hk.
      cbn [positions set_orders set_openOrders set_positions set_balance] in Hk.
      rewrite lookup_insert_ne in Hk by exact Hne. exact (Hinv k p Hk).
  - pose proof (GetAccountSummary_shape b currency) as Hs. cbv zeta in Hs.
    rewrite Hs in Hcall. injection Hcall as _ <-.
    unfold positionOf.
    destruct (positions b !! currencySymbol currency) as [p|] eqn:Hp; cbn [default].
    + rewrite (insert_id _ _ _ Hp). now destruct b.
    + now apply limitInv_fresh.
  - rewrite GetOrderBook_shape in Hcall. injection Hcall as _ <-. exact Hinv.
  - rewrite GetOpenOrders_filter in Hcall. injection Hcall as _ <-. exact Hinv.
  - unfold GetOrder in Hcall. unfold_M.
    destruct (orders b !! id); injection Hcall as _ <-; exact Hinv.
  - unfold GetPosition in Hcall. unfold_M.
    destruct (positions b !! symbol); injection Hcall as _ <-; exact Hinv.
Qed.

(** X21.  The position limit as an invariant.  From [NewBroker], through
    any calls of the public interface in which the amounts of the orders
    are whole numbers between 0 and 2^52, every position on file is a
    whole number within the limit of 100000. *)
Theorem position_limit_for_whole_amounts (d : Tick.t float) (cash makerFee takerFee : float) b :
  wholeReaches (NewBroker d cash makerFee takerFee) b -> limitInv b.
Proof.
  intros Hr.
  apply (rtc_ind_r (R := wholeStep) limitInv (NewBroker d cash makerFee takerFee));
    [|intros b1 b2 _ Hstep IH; exact (limitInv_step b1 b2 IH Hstep)|exact Hr].
  intros k p Hk. cbn in Hk. rewrite lookup_empty in Hk. discriminate.
Qed.
End WholeAmounts.



(** ** Closed instances of the above *)

Section MoreSamples.
Local Existing Instance sampleModels.
Local Open Scope float_scope.

Lemma bought10 :
  PlaceOrder 1 "BTC-PERPETUAL" Buy OrderTypeMarket 0 10 false false broker0
  = Returns (zeroOrder, None) brokerBought10.
Proof. vm_compute. reflexivity. Qed.

Lemma reaches_bought10 : reaches broker0 brokerBought10.
Proof.
  apply rtc_once.
  exact (step_PlaceOrder 1 "BTC-PERPETUAL" Buy OrderTypeMarket 0 10 false false _ _ _ bought10).
Qed.

Lemma rejected200000 :
  PlaceOrder 1 "BTC-PERPETUAL" Buy OrderTypeMarket 0 200000 false false broker0
  = Returns (zeroOrder, Some ErrPositionLimit)
      (set_positions (<["BTC-PERPETUAL" := freshPosition "BTC-PERPETUAL"]> (positions broker0))
                     broker0).
Proof. vm_compute. reflexivity. Qed.

Lemma PlaceOrder_accepted_is_on_file_witness :
  GetOrder "BTC-PERPETUAL" 1 brokerBought10 = Returns (order10, None) brokerBought10 /\
  openOrders brokerBought10 !! 1%N = Some order10 /\
  historyOrders brokerBought10 = historyOrders broker0.
Proof.
  destruct (PlaceOrder_accepted_is_on_file _ _ _ _ _ _ _ _ _ _ _ bought10)
    as (_ & Hopen & Hhist & Hget & _).
  split; [exact (Hget "BTC-PERPETUAL")|]. split; [exact Hopen|exact Hhist].
Defined.

Lemma PlaceOrder_rejected_state_witness :
  let b' := set_positions
              (<["BTC-PERPETUAL" := freshPosition "BTC-PERPETUAL"]> (positions broker0))
              broker0 in
  b' = broker0 \/
  (positions broker0 !! "BTC-PERPETUAL" = None /\ ErrPositionLimit <> ErrInvalidSize (F := float) /\
   b' = b').
Proof.
  intros b'.
  destruct (PlaceOrder_rejected_state _ _ _ _ _ _ _ _ _ _ _ _ rejected200000)
    as [H|(H1 & H2 & H3)]; [now left|right; repeat split; assumption].
Defined.

Lemma PlaceOrder_frame_witness :
  data brokerBought10 = data broker0 /\
  takerFeeRate brokerBought10 = takerFeeRate broker0 /\
  positions brokerBought10 !! "ETH-PERPETUAL" = positions broker0 !! "ETH-PERPETUAL".
Proof.
  destruct (PlaceOrder_frame _ _ _ _ _ _ _ _ _ _ _ _ bought10)
    as (Hd & _ & Ht & Hp & _).
  split; [exact Hd|]. split; [exact Ht|]. apply Hp. discriminate.
Defined.

Lemma updatePosition_drops_no_error_witness :
  exists b2,
    closePosition (Some "BTC-PERPETUAL") (-200) 110 (brokerHolding 500 100)
      = Returns None b2 /\
    updatePosition "BTC-PERPETUAL" (-200) 110 (brokerHolding 500 100) = Returns tt b2.
Proof.
  destruct (updatePosition_drops_no_error (brokerHolding 500 100) "BTC-PERPETUAL" (-200) 110)
    as (_ & b2 & Hc & Hu).
  exists b2. split; [|exact Hu].
  rewrite <- Hc. vm_compute. reflexivity.
Defined.

Lemma market_fill_moves_position_by_amount_witness :
  exists p',
    positions brokerBought10 !! "BTC-PERPETUAL" = Some p' /\
    (Position.Size p' = 0 + 10 \/ Position.Size p' = 0).
Proof.
  destruct (market_fill_moves_position_by_amount _ _ _ _ _ _ _ _ _ _ _ bought10)
    as (p' & Hp' & [Hs|(Hs & _)]); exists p'; (split; [exact Hp'|]);
    [left; exact Hs|right; exact Hs].
Defined.

Lemma closePosition_exact_close_witness :
  closePosition (Some "BTC-PERPETUAL") (-500) 110 (brokerHolding 500 100) =
    Returns None
      (set_balance (100 + CalcPnl Buy 500 100 110) (brokerHolding 0 0)).
Proof.
  pose (p := Position.mk float "BTC-PERPETUAL" 0 0 500 100).
  assert (Hp : positions (brokerHolding 500 100) !! "BTC-PERPETUAL" = Some p)
    by (vm_compute; reflexivity).
  assert (Ho : opposite (Position.Size p) (-500) = true) by (vm_compute; reflexivity).
  assert (Hf : ffinite (-500) = true) by (vm_compute; reflexivity).
  assert (He : feq (fabs (-500)) (fabs (Position.Size p)) = true)
    by (vm_compute; reflexivity).
  rewrite (closePosition_exact_close (brokerHolding 500 100) "BTC-PERPETUAL" p (-500) 110
             Hp Ho Hf He).
  vm_compute. reflexivity.
Defined.

Lemma GetOpenOrders_lists_symbol_witness :
  exists result,
    GetOpenOrders (map_to_list (openOrders brokerBought10)) "BTC-PERPETUAL" brokerBought10
      = Returns (result, None) brokerBought10 /\
    order10 ∈ result.
Proof.
  destruct (GetOpenOrders_lists_symbol (map_to_list (openOrders brokerBought10))
              "BTC-PERPETUAL" brokerBought10 (reflexivity _)) as (result & Hget & _ & Hin).
  exists result. split; [exact Hget|]. apply Hin. exists 1%N.
  split; vm_compute; reflexivity.
Defined.

Lemma registry_invariant_witness : registryInv brokerBought10.
Proof.
  exact (registry_invariant quote 100 (-0.000244140625) 0.0009765625 brokerBought10
           reaches_bought10).
Defined.

Lemma ledger_invariant_witness : ledgerInv brokerBought10.
Proof.
  exact (ledger_invariant quote 100 (-0.000244140625) 0.0009765625 brokerBought10
           reaches_bought10).
Defined.

Lemma nothing_is_removed_witness :
  takerFeeRate brokerBought10 = takerFeeRate broker0.
Proof.
  exact (proj1 (proj2 (nothing_is_removed broker0 brokerBought10 reaches_bought10))).
Defined.

Lemma order_book_never_changes_witness :
  exists book,
    GetOrderBook "BTC-PERPETUAL" 1 broker0 = Returns (book, None) broker0 /\
    GetOrderBook "ETH-PERPETUAL" 5 brokerBought10 = Returns (book, None) brokerBought10 /\
    OrderBook.Asks book = [Item.mk float 100 1000].
Proof.
  destruct (order_book_never_changes broker0 brokerBought10 "BTC-PERPETUAL" 1
              "ETH-PERPETUAL" 5 reaches_bought10) as (book & H1 & H2 & Ha & _).
  exists book. split; [exact H1|]. split; [exact H2|].
  rewrite Ha. vm_compute. reflexivity.
Defined.

Lemma open_orders_are_all_orders_witness :
  exists result,
    GetOpenOrders (map_to_list (openOrders brokerBought10)) "BTC-PERPETUAL" brokerBought10
      = Returns (result, None) brokerBought10 /\
    order10 ∈ result.
Proof.
  destruct (open_orders_are_all_orders quote 100 (-0.000244140625) 0.0009765625
              brokerBought10 (map_to_list (openOrders brokerBought10)) "BTC-PERPETUAL"
              reaches_bought10 (reflexivity _)) as (result & Hget & Hin).
  exists result. split; [exact Hget|]. apply Hin. exists 1%N.
  split; vm_compute; reflexivity.
Defined.

Lemma accepted_fill_keeps_truncated_limit_witness :
  exists p',
    positions brokerBought10 !! "BTC-PERPETUAL" = Some p' /\
    (fint (Position.Size p') <= PositionSizeLimit)%Z.
Proof.
  exact (accepted_fill_keeps_truncated_limit broker0 1 "BTC-PERPETUAL" Buy OrderTypeMarket
           0 10 false false zeroOrder brokerBought10 bought10).
Defined.

Lemma whole_10 : whole 10 10.
Proof. vm_compute. split; [intros H; discriminate H|reflexivity]. Qed.

Lemma whole_amounts_keep_the_limit_witness :
  exists p',
    positions brokerBought10 !! "BTC-PERPETUAL" = Some p' /\
    whole (Position.Size p') (0 + 10) /\
    (- PositionSizeLimit <= 0 + 10 <= PositionSizeLimit)%Z.
Proof.
  apply (whole_amounts_keep_the_limit broker0 1 "BTC-PERPETUAL" Buy OrderTypeMarket
           0 10 0 10 false false zeroOrder brokerBought10).
  - exact whole_zero.
  - unfold PositionSizeLimit. lia.
  - exact whole_10.
  - lia.
  - vm_compute. reflexivity.
Defined.

Lemma position_limit_for_whole_amounts_witness : limitInv brokerBought10.
Proof.
  apply (position_limit_for_whole_amounts quote 100 (-0.000244140625) 0.0009765625).
  apply rtc_once.
  apply (wholeStep_PlaceOrder 1 "BTC-PERPETUAL" Buy OrderTypeMarket 0 10 10 false false
           (zeroOrder, None)); [exact whole_10|lia|vm_compute; reflexivity].
Defined.

(** The amount has to be non-negative: a buy of -20 on a short position of
    100000 passes the three tests, is filled as a sale, and leaves a
    position of -100020. *)
Example negative_amount_breaches_limit :
  exists b' p,
    PlaceOrder 1 "BTC-PERPETUAL" Buy OrderTypeMarket 0 (-20) false false
               (brokerHolding (-100000) 100) = Returns (zeroOrder, None) b' /\
    positions b' !! "BTC-PERPETUAL" = Some p /\
    Position.Size p = -100020.
Proof. do 2 eexists. repeat split; vm_compute; reflexivity. Qed.
End MoreSamples.

